(** * build-from-airtable.mjs: the content-rendering pipeline

    A shallow embedding of [src/build-from-airtable.mjs]: the Escaper
    ([escapeHtml]), the Card Renderer ([renderCards]), the Page Assembler
    and the fetch / write glue of [main], followed by the properties the
    specification states about them.

    Modelling conventions.
    - A JavaScript string is a [string] of bytes holding its UTF-8 encoding.
      The four characters the Escaper looks for are ASCII, and an ASCII byte
      never occurs inside a multi-byte UTF-8 sequence, so replacing bytes and
      replacing characters agree.
    - A JavaScript number is an integer [Z]: the only numeric field of the
      data model ([Order]) is an integer, and JSON carries neither NaN nor
      an infinity.  Fractional numbers are outside the model, and so is the
      exponent notation [String] uses from 10^21 on.
    - An object used as a dictionary ([rec.fields], [globals]) is a
      [gmap string jsval]; reading a missing key gives [JUndefined]. *)

From Stdlib Require Import ZArith Ascii String DecimalString.
From stdpp Require Import gmap strings list fin_maps sorting.

Local Open Scope Z_scope.

(** ** JavaScript values and the coercions the script relies on *)

Inductive jsval : Type :=
  | JUndefined
  | JNull
  | JBool (b : bool)
  | JNum (n : Z)
  | JStr (s : string).

#[global] Instance jsval_eq_dec : EqDecision jsval.
Proof. solve_decision. Defined.

#[global] Instance jsval_inhabited : Inhabited jsval := populate JUndefined.

(** The double quote and the line feed, which a string literal cannot hold. *)
Definition dq : string := String "034"%char "".
Definition nl : string := String "010"%char "".

(** [ToBoolean]: what [if], [||], the conditional operator and
    [filter(Boolean)] test. *)
Definition truthy (v : jsval) : bool :=
  match v with
  | JUndefined | JNull => false
  | JBool b => b
  | JNum n => negb (n =? 0)
  | JStr s => negb (String.eqb s "")
  end.

(** [a || b] *)
Definition js_or (a b : jsval) : jsval := if truthy a then a else b.

(** [a ?? b] *)
Definition js_nullish (a b : jsval) : jsval :=
  match a with
  | JUndefined | JNull => b
  | _ => a
  end.

(** [String(n)] for an integer. *)
Definition Z_to_string (n : Z) : string :=
  NilZero.string_of_int (Z.to_int n).

(** [String(v)] *)
Definition ToString (v : jsval) : string :=
  match v with
  | JUndefined => "undefined"
  | JNull => "null"
  | JBool true => "true"
  | JBool false => "false"
  | JNum n => Z_to_string n
  | JStr s => s
  end.

(** [obj[key]]: a missing property reads as [undefined]. *)
Definition get (obj : gmap string jsval) (key : string) : jsval :=
  default JUndefined (obj !! key).

(** ** The Escaper *)

(** [s.replace(/c/g, by)] for a one-character pattern [c]. *)
Fixpoint replaceAll (c : ascii) (by_ : string) (s : string) : string :=
  match s with
  | EmptyString => EmptyString
  | String x rest =>
      if Ascii.eqb x c then by_ +:+ replaceAll c by_ rest
      else String x (replaceAll c by_ rest)
  end.

(** The body of [escapeHtml], on the string [String(value)]. *)
Definition escapeString (s : string) : string :=
  replaceAll "034" ("&quot;")
    (replaceAll ">" "&gt;"
      (replaceAll "<" "&lt;"
        (replaceAll "&" "&amp;" s))).

(** [function escapeHtml(value = "")]: the default value replaces an
    argument that is missing or [undefined], and nothing else. *)
Definition escapeHtml (value : jsval) : string :=
  let value := match value with JUndefined => JStr "" | _ => value end in
  escapeString (ToString value).

(** The Escaper as the specification words it: every character is looked at
    once; the four significant ones become their entity, any other
    character is kept. *)
Definition escapeChar (c : ascii) : string :=
  if Ascii.eqb c "&" then "&amp;"
  else if Ascii.eqb c "<" then "&lt;"
  else if Ascii.eqb c ">" then "&gt;"
  else if Ascii.eqb c "034" then "&quot;"
  else String c "".

Fixpoint escapeChars (s : string) : string :=
  match s with
  | EmptyString => EmptyString
  | String c rest => escapeChar c +:+ escapeChars rest
  end.

(** [significant c]: [c] is one of the characters the Escaper rewrites. *)
Definition significant (c : ascii) : bool :=
  Ascii.eqb c "&" || Ascii.eqb c "<" || Ascii.eqb c ">" || Ascii.eqb c "034".

(** [markup c]: [c] opens or closes a tag, or delimits an attribute value. *)
Definition markup (c : ascii) : bool :=
  Ascii.eqb c "<" || Ascii.eqb c ">" || Ascii.eqb c "034".

(** [has p s]: some character of [s] satisfies [p]. *)
Fixpoint has (p : ascii → bool) (s : string) : bool :=
  match s with
  | EmptyString => false
  | String c rest => p c || has p rest
  end.

(** [startsWith pat s] and the number of places of [s] where [pat] starts. *)
Fixpoint startsWith (pat s : string) : bool :=
  match pat, s with
  | EmptyString, _ => true
  | String _ _, EmptyString => false
  | String a pat', String b s' => Ascii.eqb a b && startsWith pat' s'
  end.

Fixpoint occurrences (pat s : string) : nat :=
  match s with
  | EmptyString => 0%nat
  | String _ rest =>
      ((if startsWith pat s then 1 else 0) + occurrences pat rest)%nat
  end.

(** ** Records and the Card Renderer *)

(** One row of a table as the API delivers it: [{ id, fields }]. *)
Record AirtableRecord : Type := mkRecord {
  rec_id : string;
  fields : gmap string jsval
}.

#[global] Instance AirtableRecord_eq_dec : EqDecision AirtableRecord.
Proof. solve_decision. Defined.

(** [StringToNumber] on decimal integer literals with an optional sign,
    surrounded by ASCII white space; the empty string is 0.  [None] is NaN.
    Literals with a fraction, an exponent or a radix prefix denote numbers
    that are not integers or are written in a form left out here; they read
    as [None] too, where the code gives their value.  The comparator of
    [renderCards] is therefore the code's on records whose [Order] is a
    number or absent, and may differ from it on an [Order] that is such a
    text.  No property below depends on the number a text denotes. *)
Fixpoint digitsToZ (acc : Z) (s : string) : option Z :=
  match s with
  | EmptyString => Some acc
  | String c rest =>
      match Ascii.is_nat c with
      | Some d => digitsToZ (10 * acc + Z.of_nat d) rest
      | None => None
      end
  end.

Fixpoint dropSpaces (s : string) : string :=
  match s with
  | String c rest => if Ascii.is_space c then dropSpaces rest else s
  | EmptyString => EmptyString
  end.

Definition trim (s : string) : string :=
  String.rev (dropSpaces (String.rev (dropSpaces s))).

Definition StringToNumber (s : string) : option Z :=
  match trim s with
  | EmptyString => Some 0
  | String "-" (String c r) => Z.opp <$> digitsToZ 0 (String c r)
  | String "+" (String c r) => digitsToZ 0 (String c r)
  | t => digitsToZ 0 t
  end.

(** [ToNumber]; [None] is NaN. *)
Definition ToNumber (v : jsval) : option Z :=
  match v with
  | JUndefined => None
  | JNull => Some 0
  | JBool b => Some (if b then 1 else 0)
  | JNum n => Some n
  | JStr s => StringToNumber s
  end.

(** [x - y]; NaN if either side is. *)
Definition js_sub (x y : jsval) : option Z :=
  match ToNumber x, ToNumber y with
  | Some a, Some b => Some (a - b)
  | _, _ => None
  end.

(** The comparator handed to [sort]:
    [(a, b) => (a.fields.Order || 0) - (b.fields.Order || 0)]. *)
Definition byOrder (a b : AirtableRecord) : option Z :=
  js_sub (js_or (get (fields a) "Order") (JNum 0))
         (js_or (get (fields b) "Order") (JNum 0)).

(** [Array.prototype.sort(comparefn)].  The comparator's result is read as
    a number and NaN counts as 0 ([SortCompare]).  The language requires the
    sort to be stable; for a consistent comparator that fixes the result,
    and every stable algorithm computes it.  The model is the stable
    insertion sort: it is one of the orders an engine may produce when the
    comparator is not consistent (an [Order] that reads as NaN), and an
    engine may produce another; the properties that speak of the order of
    the result are stated for a consistent comparator.  The sort works in
    place: the list it
    returns is the new content of the array it was called on. *)
Section ArraySort.
Context {A : Type} (comparefn : A → A → option Z).

Definition SortCompare (x y : A) : Z := default 0 (comparefn x y).

Fixpoint sort_insert (x : A) (l : list A) : list A :=
  match l with
  | [] => [x]
  | y :: l' =>
      if SortCompare x y <=? 0 then x :: l else y :: sort_insert x l'
  end.

Fixpoint Array_sort (l : list A) : list A :=
  match l with
  | [] => []
  | x :: l' => sort_insert x (Array_sort l')
  end.
End ArraySort.

(** [Array.prototype.join] on an array of strings. *)
Fixpoint join (sep : string) (l : list string) : string :=
  match l with
  | [] => ""
  | [x] => x
  | x :: l' => x +:+ sep +:+ join sep l'
  end.

(** [`<li>${escapeHtml(b)}</li>`] *)
Definition renderBullet (b : jsval) : string :=
  "<li>" +:+ escapeHtml b +:+ "</li>".

(** The values [filter(Boolean)] keeps of the three bullet slots. *)
Definition keptBullets (f : gmap string jsval) : list jsval :=
  filter (λ b, truthy b = true)
         [get f "Bullet 1"; get f "Bullet 2"; get f "Bullet 3"].

Definition bulletsOf (f : gmap string jsval) : string :=
  join "" (renderBullet <$> keptBullets f).

(** [bullets ? `<ul>${bullets}</ul>` : ""] *)
Definition bulletsHtmlOf (f : gmap string jsval) : string :=
  let bullets := bulletsOf f in
  if truthy (JStr bullets) then "<ul>" +:+ bullets +:+ "</ul>" else "".

(** [f.Highlight ? " card highlight" : ""] *)
Definition highlightClassOf (f : gmap string jsval) : string :=
  if truthy (get f "Highlight") then " card highlight" else "".

(** The arrow function mapped over the sorted records. *)
Definition renderCard (rec : AirtableRecord) : string :=
  let f := fields rec in
  let title := escapeHtml (js_nullish (get f "Title") (JStr "")) in
  let body := escapeHtml (js_nullish (get f "Body") (JStr "")) in
  let highlightClass := highlightClassOf f in
  let bulletsHtml := bulletsHtmlOf f in
  nl +:+ "    <section class=" +:+ dq +:+ "card" +:+ highlightClass
     +:+ dq +:+ ">" +:+ nl
     +:+ "      <h2>" +:+ title +:+ "</h2>" +:+ nl
     +:+ "      <p>" +:+ body +:+ "</p>" +:+ nl
     +:+ "      " +:+ bulletsHtml +:+ nl
     +:+ "    </section>".

(** [renderCards(sections)]: the HTML it returns, paired with the content
    of the array [sections] after the call ([sort] reorders it in place;
    [map] and [join] build new values). *)
Definition renderCards (sections : list AirtableRecord)
  : string * list AirtableRecord :=
  let sorted := Array_sort byOrder sections in
  (join nl (renderCard <$> sorted), sorted).

(** ** The Page Assembler *)

(** [a || b] on two strings: the empty string is the only falsy one. *)
Definition str_or (a b : string) : string :=
  if truthy (JStr a) then a else b.

Definition heroTitleOf (globals : gmap string jsval) : string :=
  escapeHtml (js_or (get globals "Hero Title") (JStr "")).

Definition heroSubtitleOf (globals : gmap string jsval) : string :=
  escapeHtml (js_or (get globals "Hero Subtitle") (JStr "")).

Definition footerTextOf (globals : gmap string jsval) : string :=
  escapeHtml (js_or (get globals "Footer Text") (JStr "")).

(** [escapeHtml(globals["SEO Title"]) || heroTitle || "Simple Web"] *)
Definition seoTitleOf (globals : gmap string jsval) : string :=
  str_or (escapeHtml (get globals "SEO Title"))
         (str_or (heroTitleOf globals) "Simple Web").

Definition seoDescriptionOf (globals : gmap string jsval) : string :=
  escapeHtml (js_or (get globals "SEO Description") (JStr "")).

(** The template literal bound to [html] in [main], with its six holes. *)
Definition documentTemplate
    (seoTitle seoDescription heroTitle heroSubtitle cardsHtml footerText
       : string) : string :=
  "<!DOCTYPE html>" +:+ nl
  +:+ "<html lang=" +:+ dq +:+ "en" +:+ dq +:+ ">" +:+ nl
  +:+ "<head>" +:+ nl
  +:+ "  <meta charset=" +:+ dq +:+ "UTF-8" +:+ dq +:+ " />" +:+ nl
  +:+ "  <meta name=" +:+ dq +:+ "viewport" +:+ dq +:+ " content=" +:+ dq
      +:+ "width=device-width, initial-scale=1.0" +:+ dq +:+ " />" +:+ nl
  +:+ "  <title>" +:+ seoTitle +:+ "</title>" +:+ nl
  +:+ "  <meta name=" +:+ dq +:+ "description" +:+ dq +:+ " content=" +:+ dq
      +:+ seoDescription +:+ dq +:+ ">" +:+ nl
  +:+ "  <link rel=" +:+ dq +:+ "stylesheet" +:+ dq +:+ " href=" +:+ dq
      +:+ "styles.css" +:+ dq +:+ " />" +:+ nl
  +:+ "</head>" +:+ nl
  +:+ "<body>" +:+ nl
  +:+ "  <header class=" +:+ dq +:+ "site-header" +:+ dq +:+ ">" +:+ nl
  +:+ "    <div class=" +:+ dq +:+ "container" +:+ dq +:+ ">" +:+ nl
  +:+ "      <h1>" +:+ heroTitle +:+ "</h1>" +:+ nl
  +:+ "      <p class=" +:+ dq +:+ "subtitle" +:+ dq +:+ ">"
      +:+ heroSubtitle +:+ "</p>" +:+ nl
  +:+ "    </div>" +:+ nl
  +:+ "  </header>" +:+ nl
  +:+ nl
  +:+ "  <main class=" +:+ dq +:+ "container" +:+ dq +:+ ">" +:+ nl
  +:+ "    " +:+ cardsHtml +:+ nl
  +:+ "  </main>" +:+ nl
  +:+ nl
  +:+ "  <footer class=" +:+ dq +:+ "site-footer" +:+ dq +:+ ">" +:+ nl
  +:+ "    <div class=" +:+ dq +:+ "container" +:+ dq +:+ ">" +:+ nl
  +:+ "      <p>" +:+ footerText +:+ "</p>" +:+ nl
  +:+ "    </div>" +:+ nl
  +:+ "  </footer>" +:+ nl
  +:+ "</body>" +:+ nl
  +:+ "</html>".

(** Lines 83-119 of [main]: the values read from [globals], then the
    template. *)
Definition documentHtml (globals : gmap string jsval) (cardsHtml : string)
  : string :=
  let heroTitle := heroTitleOf globals in
  let heroSubtitle := heroSubtitleOf globals in
  let footerText := footerTextOf globals in
  let seoTitle := seoTitleOf globals in
  let seoDescription := seoDescriptionOf globals in
  documentTemplate seoTitle seoDescription heroTitle heroSubtitle cardsHtml
    footerText.

(** ** Reading markup back

    The vocabulary the properties use to speak about the text produced:
    the content found between an opening and a closing marker. *)

Fixpoint skip (n : nat) (s : string) : string :=
  match n, s with
  | O, _ => s
  | S n', String _ rest => skip n' rest
  | S _, EmptyString => EmptyString
  end.

(** The text after the first occurrence of [pat]. *)
Fixpoint after (pat s : string) : option string :=
  match s with
  | EmptyString => None
  | String _ rest =>
      if startsWith pat s then Some (skip (String.length pat) s)
      else after pat rest
  end.

(** The text before the first occurrence of [pat]. *)
Fixpoint before (pat s : string) : option string :=
  match s with
  | EmptyString => None
  | String c rest =>
      if startsWith pat s then Some EmptyString
      else String c <$> before pat rest
  end.

(** The text between the first [opening] and the next [closing]. *)
Definition between (opening closing s : string) : option string :=
  after opening s ≫= before closing.

(** Matching inside a fixed piece of text, for counting through a template:
    [matchWithin pat s] is [Some true] when [pat] starts [s], [Some false]
    when a character of [s] differs, and [None] when [s] ends before either
    is known, so that the answer would depend on what follows [s]. *)
Fixpoint matchWithin (pat s : string) : option bool :=
  match pat, s with
  | EmptyString, _ => Some true
  | String _ _, EmptyString => None
  | String a pat', String b s' =>
      if Ascii.eqb a b then matchWithin pat' s' else Some false
  end.

(** The number of places of [s] where [pat] starts, when every place of [s]
    is decided inside [s]. *)
Fixpoint countWithin (pat s : string) : option nat :=
  match s with
  | EmptyString => Some 0%nat
  | String _ rest =>
      m ← matchWithin pat s;
      n ← countWithin pat rest;
      Some ((if m : bool then 1 else 0) + n)%nat
  end.

(** ** The run: fetching, assembling, writing

    The network and the file system are the script's surroundings.  What
    they answer is an [Env]: the two environment variables, the response
    (or the failure) [fetch] gives for a URL and an [Authorization] header,
    the paths on which a file-system call fails, and how far a failing
    write got ([fsWritten]: [None] when the file could not be opened,
    [Some n] when it was opened and [n] bytes were written).  What the run does to
    them is a [State]: the requests sent, the console lines printed, the
    directories made and the files written. *)

Inductive Json : Type :=
  | JsonRejected                                       (* [res.json()] rejects *)
  | JsonObject (records : option (list AirtableRecord)). (* its [records] property *)

Record Response : Type := mkResponse {
  status : Z;
  statusText : string;
  text : string;
  json : Json
}.

(** [res.ok]: the status is in the range 200-299. *)
Definition ok (res : Response) : bool :=
  (200 <=? status res) && (status res <=? 299).

Inductive exn : Type :=
  | Error (message : string)   (* [new Error(message)], thrown by the script *)
  | TypeError                  (* a property read on [undefined] *)
  | Rejected                   (* [fetch] or [res.json()] rejected *)
  | FsError (path : string).   (* a file-system call failed *)

Inductive consoleLine : Type :=
  | Log (line : string)
  | LogError (line : string) (err : option exn).

Record Env : Type := mkEnv {
  AIRTABLE_TOKEN : option string;
  AIRTABLE_BASE_ID : option string;
  fetch : string → string → option Response;
  fsFails : string → bool;
  fsWritten : string → option nat
}.

Record State : Type := mkState {
  requests : list (string * string);
  console : list consoleLine;
  dirs : gset string;
  files : gmap string string
}.

Definition initialState : State :=
  {| requests := []; console := []; dirs := ∅; files := ∅ |}.

(** Computations that may throw and that act on the [State]. *)
Definition M (A : Type) : Type := State → (exn + A) * State.

#[global] Instance M_ret : MRet M := λ A (a : A) s, (inr a, s).

#[global] Instance M_bind : MBind M := λ A B (k : A → M B) (m : M A) s,
  match m s with
  | (inl e, s') => (inl e, s')
  | (inr a, s') => k a s'
  end.

Definition throw {A : Type} (e : exn) : M A := λ s, (inl e, s).

Definition console_log (line : string) : M unit := λ s,
  (inr tt, {| requests := requests s; console := console s ++ [Log line];
              dirs := dirs s; files := files s |}).

Definition doFetch (env : Env) (url authorization : string) : M Response :=
  λ s,
  let s' := {| requests := requests s ++ [(url, authorization)];
               console := console s; dirs := dirs s; files := files s |} in
  match fetch env url authorization with
  | Some res => (inr res, s')
  | None => (inl Rejected, s')
  end.

(** [fs.mkdir(path, { recursive: true })] *)
Definition fs_mkdir (env : Env) (path : string) : M unit := λ s,
  if fsFails env path then (inl (FsError path), s)
  else (inr tt, {| requests := requests s; console := console s;
                   dirs := {[path]} ∪ dirs s; files := files s |}).

(** The first [n] bytes of a text. *)
Fixpoint firstBytes (n : nat) (s : string) : string :=
  match n, s with
  | S n', String c rest => String c (firstBytes n' rest)
  | _, _ => EmptyString
  end.

(** [fs.writeFile(path, data, "utf8")].  The file is opened with flag [w],
    which creates it or empties it, and then written; nothing is written to
    another file first.  A call that fails at the open leaves the file as
    it was; a call that fails later leaves the bytes written until then. *)
Definition fs_writeFile (env : Env) (path data : string) : M unit := λ s,
  if fsFails env path then
    (inl (FsError path),
     match fsWritten env path with
     | None => s
     | Some n =>
         {| requests := requests s; console := console s; dirs := dirs s;
            files := <[path := firstBytes n data]> (files s) |}
     end)
  else (inr tt, {| requests := requests s; console := console s;
                   dirs := dirs s; files := <[path := data]> (files s) |}).

(** [encodeURIComponent]: letters, digits and [- _ . ! ~ * ' ( )] stay;
    every other byte of the UTF-8 encoding becomes [%XX]. *)
Definition unreserved (c : ascii) : bool :=
  let n := N_of_ascii c in
  ((48 <=? n) && (n <=? 57) || (65 <=? n) && (n <=? 90)
   || (97 <=? n) && (n <=? 122)
   || bool_decide (c ∈ ["-"; "_"; "."; "!"; "~"; "*"; "'"; "("; ")"]%char))%N.

Definition hexDigit (n : N) : ascii :=
  ascii_of_N (if (n <? 10)%N then 48 + n else 55 + n).

Fixpoint encodeURIComponent (s : string) : string :=
  match s with
  | EmptyString => EmptyString
  | String c rest =>
      if unreserved c then String c (encodeURIComponent rest)
      else String "%" (String (hexDigit (N_of_ascii c / 16))
             (String (hexDigit (N_of_ascii c mod 16))
               (encodeURIComponent rest)))
  end.

(** [`${x}`] of an environment variable that may be unset. *)
Definition envText (x : option string) : string :=
  ToString (from_option JStr JUndefined x).

(** [!x] of an environment variable. *)
Definition envMissing (x : option string) : bool :=
  negb (truthy (from_option JStr JUndefined x)).

Definition GLOBALS_TABLE : string := "Globals".
Definition SECTIONS_TABLE : string := "Sections".

Section Run.
Context (env : Env).

(** [headers.Authorization] *)
Definition authorization : string :=
  "Bearer " +:+ envText (AIRTABLE_TOKEN env).

(** The state once a request to [url] has been sent. *)
Definition sent (s : State) (url : string) : State :=
  {| requests := requests s ++ [(url, authorization)];
     console := console s; dirs := dirs s; files := files s |}.

Definition tableUrl (tableName params : string) : string :=
  "https://api.airtable.com/v0/" +:+ envText (AIRTABLE_BASE_ID env)
    +:+ "/" +:+ encodeURIComponent tableName +:+ params.

Definition fetchError (tableName : string) (res : Response) : exn :=
  Error ("Failed to fetch " +:+ tableName +:+ ": "
           +:+ Z_to_string (status res) +:+ " " +:+ statusText res
           +:+ nl +:+ text res).

(** [fetchTable(tableName, params)]; the result is [json.records], which
    is [None] when the answer has no such property. *)
Definition fetchTable (tableName params : string)
  : M (option (list AirtableRecord)) :=
  res ← doFetch env (tableUrl tableName params) authorization;
  if negb (ok res) then throw (fetchError tableName res)
  else
    match json res with
    | JsonRejected => throw Rejected
    | JsonObject records => mret records
    end.

(** [globalsRecords[0]?.fields ?? {}] *)
Definition globalsOf (globalsRecords : list AirtableRecord)
  : gmap string jsval :=
  match globalsRecords with
  | [] => ∅
  | r :: _ => fields r
  end.

Definition main : M unit :=
  console_log "📡 Fetching content from Airtable...";;
  globalsRecords ← fetchTable GLOBALS_TABLE "?maxRecords=1";
  sectionsRecords ← fetchTable SECTIONS_TABLE "";
  globals ← from_option (λ l, mret (globalsOf l)) (throw TypeError)
              globalsRecords;
  cardsHtml ← from_option (λ l, mret (renderCards l).1) (throw TypeError)
                sectionsRecords;
  let html := documentHtml globals cardsHtml in
  fs_mkdir env "public";;
  fs_writeFile env "public/index.html" html;;
  console_log "✅ index.html generated from Airtable".

(** The whole script: the check of the environment, then
    [main().catch(...)].  The result is the exit code. *)
Definition script (s : State) : Z * State :=
  if envMissing (AIRTABLE_TOKEN env) || envMissing (AIRTABLE_BASE_ID env)
  then
    (1, {| requests := requests s;
           console := console s ++
             [LogError
                "❌ Missing AIRTABLE_TOKEN or AIRTABLE_BASE_ID environment variables."
                None];
           dirs := dirs s; files := files s |})
  else
    match main s with
    | (inl err, s') =>
        (1, {| requests := requests s';
               console := console s' ++
                 [LogError "❌ Build failed:" (Some err)];
               dirs := dirs s'; files := files s' |})
    | (inr _, s') => (0, s')
    end.
End Run.

(** ** The data model of the specification

    The specification types the fields: [Order] is an integer, the titles,
    texts and bullets are optional text.  These predicates say that a value
    read from a record has that type; the functions give the value the
    specification speaks of. *)

(** A number, or absent. *)
Definition isOptionalNumber (v : jsval) : bool :=
  match v with
  | JUndefined | JNull | JNum _ => true
  | _ => false
  end.

(** A text, or absent. *)
Definition isOptionalText (v : jsval) : bool :=
  match v with
  | JUndefined | JStr _ => true
  | _ => false
  end.

(** A text, or absent, or [null]. *)
Definition isNullableText (v : jsval) : bool :=
  match v with
  | JUndefined | JNull | JStr _ => true
  | _ => false
  end.

(** The text of an optional text: empty when absent. *)
Definition textOf (v : jsval) : string :=
  match v with
  | JStr s => s
  | _ => ""
  end.

(** The [Order] of a record: 0 when absent. *)
Definition orderOf (rec : AirtableRecord) : Z :=
  match get (fields rec) "Order" with
  | JNum n => n
  | _ => 0
  end.

Definition hasOrder (rec : AirtableRecord) : Prop :=
  isOptionalNumber (get (fields rec) "Order") = true.

(** The non-empty bullets of a record, in slot order 1, 2, 3. *)
Definition nonEmptyBullets (f : gmap string jsval) : list string :=
  filter (λ b, b ≠ "")
    (textOf <$> [get f "Bullet 1"; get f "Bullet 2"; get f "Bullet 3"]).

Definition hasTextBullets (f : gmap string jsval) : Prop :=
  Forall (λ b, isNullableText b = true)
    [get f "Bullet 1"; get f "Bullet 2"; get f "Bullet 3"].

(** The first non-empty string of a list, or [fallback]. *)
Fixpoint firstNonEmpty (candidates : list string) (fallback : string)
  : string :=
  match candidates with
  | [] => fallback
  | x :: rest => if String.eqb x "" then firstNonEmpty rest fallback else x
  end.

(** The document title as the specification words it. *)
Definition titleSpec (globals : gmap string jsval) : string :=
  firstNonEmpty
    [escapeChars (textOf (get globals "SEO Title"));
     escapeChars (textOf (get globals "Hero Title"))]
    "Simple Web".

(** ** Sample data *)

Definition cardA : AirtableRecord :=
  mkRecord "recA"
    {[ "Order" := JNum 3; "Title" := JStr "<script>";
       "Highlight" := JBool true;
       "Bullet 1" := JStr "A"; "Bullet 2" := JStr ""; "Bullet 3" := JStr "B" ]}.

Definition cardB : AirtableRecord :=
  mkRecord "recB" {[ "Order" := JNum 1; "Title" := JStr "Second" ]}.

Definition cardC : AirtableRecord :=
  mkRecord "recC" {[ "Order" := JNum 2; "Body" := JStr "Third" ]}.

Definition sampleCards : list AirtableRecord := [cardA; cardB; cardC].

Definition sampleGlobals : gmap string jsval :=
  {[ "SEO Title" := JStr ""; "Hero Title" := JStr "Welcome" ]}.

(** Every request is answered with status 404. *)
Definition notFoundEnv : Env :=
  {| AIRTABLE_TOKEN := Some "token";
     AIRTABLE_BASE_ID := Some "base";
     fetch := λ _ _, Some (mkResponse 404 "Not Found" "NOT_FOUND" JsonRejected);
     fsFails := λ _, false;
     fsWritten := λ _, None |}.

(** The Globals table is empty; the Sections table holds [sampleCards]. *)
Definition emptyGlobalsEnv : Env :=
  {| AIRTABLE_TOKEN := Some "token";
     AIRTABLE_BASE_ID := Some "base";
     fetch := λ url _,
       if String.eqb url "https://api.airtable.com/v0/base/Sections"
       then Some (mkResponse 200 "OK" "" (JsonObject (Some sampleCards)))
       else Some (mkResponse 200 "OK" "" (JsonObject (Some [])));
     fsFails := λ _, false;
     fsWritten := λ _, None |}.

(** ** Further vocabulary and sample data *)

(** Absent, [undefined] or [null]. *)
Definition isNullish (v : jsval) : bool :=
  match v with
  | JUndefined | JNull => true
  | _ => false
  end.

(** [every p s]: all the characters of [s] satisfy [p]. *)
Fixpoint every (p : ascii → bool) (s : string) : bool :=
  match s with
  | EmptyString => true
  | String c rest => p c && every p rest
  end.

(** A character [encodeURIComponent] may write: an unreserved one, or the
    percent sign that starts an escape. *)
Definition pathSafe (c : ascii) : bool := unreserved c || Ascii.eqb c "%".

(** The value of a hexadecimal digit written by [hexDigit]. *)
Definition hexValue (c : ascii) : N :=
  let n := N_of_ascii c in
  (if n <? 58 then n - 48 else n - 55)%N.

(** The number of [<] characters of a card with [n] list items. *)
Definition cardTags (n : nat) : nat :=
  (6 + (if n is O then 0 else 2) + 2 * n)%nat.

(** The token is not set. *)
Definition noTokenEnv : Env :=
  {| AIRTABLE_TOKEN := None;
     AIRTABLE_BASE_ID := Some "base";
     fetch := fetch emptyGlobalsEnv;
     fsFails := λ _, false;
     fsWritten := λ _, None |}.

(** Both tables are delivered, and the write of the output file fails
    after sixteen bytes. *)
Definition fullDiskEnv : Env :=
  {| AIRTABLE_TOKEN := Some "token";
     AIRTABLE_BASE_ID := Some "base";
     fetch := fetch emptyGlobalsEnv;
     fsFails := λ path, String.eqb path "public/index.html";
     fsWritten := λ _, Some 16%nat |}.

(** The Globals answer is an object without a [records] property. *)
Definition noRecordsEnv : Env :=
  {| AIRTABLE_TOKEN := Some "token";
     AIRTABLE_BASE_ID := Some "base";
     fetch := λ url _,
       if String.eqb url "https://api.airtable.com/v0/base/Sections"
       then Some (mkResponse 200 "OK" "" (JsonObject (Some sampleCards)))
       else Some (mkResponse 200 "OK" "" (JsonObject None));
     fsFails := λ _, false;
     fsWritten := λ _, None |}.

(** What a call of [fetchTable] returns or throws; it depends on the answer
    alone. *)
Definition fetchOutcome (env : Env) (tableName params : string)
  : exn + option (list AirtableRecord) :=
  match fetch env (tableUrl env tableName params) (authorization env) with
  | None => inl Rejected
  | Some res =>
      if ok res then
        match json res with
        | JsonRejected => inl Rejected
        | JsonObject records => inr records
        end
      else inl (fetchError tableName res)
  end.

(** The states a run goes through. *)
Definition logged (s : State) (line : consoleLine) : State :=
  {| requests := requests s; console := console s ++ [line];
     dirs := dirs s; files := files s |}.

Definition withDir (s : State) (path : string) : State :=
  {| requests := requests s; console := console s;
     dirs := {[path]} ∪ dirs s; files := files s |}.

Definition withFile (s : State) (path data : string) : State :=
  {| requests := requests s; console := console s;
     dirs := dirs s; files := <[path := data]> (files s) |}.

(** The state a failing write of [data] to [path] leaves. *)
Definition withFailedWrite (env : Env) (s : State) (path data : string)
  : State :=
  match fsWritten env path with
  | None => s
  | Some n => withFile s path (firstBytes n data)
  end.

(** The state after both tables have been asked for. *)
Definition asked (env : Env) (s : State) : State :=
  sent env
    (sent env (logged s (Log "📡 Fetching content from Airtable..."))
       (tableUrl env GLOBALS_TABLE "?maxRecords=1"))
    (tableUrl env SECTIONS_TABLE "").

(** * Properties *)

(** ** Strings *)

Section StringFacts.
Implicit Types (s t u : string) (c : ascii).

Lemma string_app_cons c s t : String c s +:+ t = String c (s +:+ t).
Proof. reflexivity. Qed.

Lemma string_app_nil_l s : "" +:+ s = s.
Proof. reflexivity. Qed.

Lemma string_app_assoc s t u : (s +:+ t) +:+ u = s +:+ (t +:+ u).
Proof.
  induction s as [|c s IH]; [done |].
  by rewrite !string_app_cons, IH.
Qed.

Lemma string_app_nil_r s : s +:+ "" = s.
Proof.
  induction s as [|c s IH]; [done |].
  by rewrite string_app_cons, IH.
Qed.

Lemma string_length_app s t :
  String.length (s +:+ t) = (String.length s + String.length t)%nat.
Proof.
  induction s as [|c s IH]; [done |].
  rewrite string_app_cons. simpl. by rewrite IH.
Qed.

Lemma has_app p s t : has p (s +:+ t) = has p s || has p t.
Proof.
  induction s as [|c s IH]; [done |].
  rewrite string_app_cons. simpl. by rewrite IH, orb_assoc.
Qed.

Lemma replaceAll_app c by_ s t :
  replaceAll c by_ (s +:+ t) = replaceAll c by_ s +:+ replaceAll c by_ t.
Proof.
  induction s as [|x s IH]; [done |].
  rewrite string_app_cons. simpl.
  destruct (Ascii.eqb x c); rewrite IH.
  - symmetry. apply string_app_assoc.
  - by rewrite string_app_cons.
Qed.

Lemma escapeString_app s t :
  escapeString (s +:+ t) = escapeString s +:+ escapeString t.
Proof. unfold escapeString. by rewrite !replaceAll_app. Qed.

(** On a single character the four replacements in sequence do what the
    one-pass table says: the ampersands the later replacements write are
    not seen by the first one. *)
Lemma escapeString_char c : escapeString (String c "") = escapeChar c.
Proof. by destruct c as [[] [] [] [] [] [] [] []]. Qed.

Lemma escapeString_chars s : escapeString s = escapeChars s.
Proof.
  induction s as [|c s IH]; [done |].
  change (String c s) with (String c "" +:+ s).
  rewrite escapeString_app, escapeString_char, IH. done.
Qed.

Lemma escapeChars_app s t :
  escapeChars (s +:+ t) = escapeChars s +:+ escapeChars t.
Proof. by rewrite <-!escapeString_chars, escapeString_app. Qed.

Lemma escapeChar_no_markup c : has markup (escapeChar c) = false.
Proof. by destruct c as [[] [] [] [] [] [] [] []]. Qed.

Lemma escapeChars_no_markup s : has markup (escapeChars s) = false.
Proof.
  induction s as [|c s IH]; simpl; [done |].
  by rewrite has_app, escapeChar_no_markup, IH.
Qed.

Lemma escapeChar_keeps c : significant c = false → escapeChar c = String c "".
Proof. by destruct c as [[] [] [] [] [] [] [] []]. Qed.

Lemma escapeChar_amp c :
  has (Ascii.eqb "&") (escapeChar c) = significant c.
Proof. by destruct c as [[] [] [] [] [] [] [] []]. Qed.

Lemma escapeChars_amp s :
  has (Ascii.eqb "&") (escapeChars s) = has significant s.
Proof.
  induction s as [|c s IH]; simpl; [done |].
  by rewrite has_app, escapeChar_amp, IH.
Qed.

Lemma escapeChar_length c :
  (String.length (escapeChar c) =
    if significant c then String.length (escapeChar c) else 1)%nat
  ∧ (1 ≤ String.length (escapeChar c))%nat
  ∧ (Ascii.eqb "&" c = true → 1 < String.length (escapeChar c))%nat.
Proof. destruct c as [[] [] [] [] [] [] [] []]; simpl; repeat split; lia || done. Qed.

Lemma escapeChars_length s :
  (String.length s ≤ String.length (escapeChars s))%nat.
Proof.
  induction s as [|c s IH]; simpl; [done |].
  rewrite string_length_app.
  pose proof (escapeChar_length c) as (_ & ? & _). lia.
Qed.

Lemma escapeChars_longer s :
  has (Ascii.eqb "&") s = true →
  (String.length s < String.length (escapeChars s))%nat.
Proof.
  induction s as [|c s IH]; [done |].
  cbn [has escapeChars String.length].
  rewrite string_length_app.
  pose proof (escapeChar_length c) as (_ & Hge & Hamp).
  pose proof (escapeChars_length s) as Hle.
  destruct (Ascii.eqb "&" c); cbn [orb]; intros Hs.
  - specialize (Hamp eq_refl). lia.
  - specialize (IH Hs). lia.
Qed.
End StringFacts.

(** ** Reading markup back *)

Section MarkupFacts.
Implicit Types (s t u pat : string) (c : ascii).

Lemma matchWithin_app pat s t m :
  matchWithin pat s = Some m → startsWith pat (s +:+ t) = m.
Proof.
  revert s. induction pat as [|a pat IH]; intros s Hm.
  - destruct s; simpl in Hm; by simplify_eq.
  - destruct s as [|b s]; [done |].
    rewrite string_app_cons. cbn [matchWithin startsWith] in *.
    destruct (Ascii.eqb a b); cbn [andb]; [by apply IH | by simplify_eq].
Qed.

Lemma countWithin_app pat s t n :
  countWithin pat s = Some n →
  occurrences pat (s +:+ t) = (n + occurrences pat t)%nat.
Proof.
  revert n. induction s as [|c s IH]; intros n Hn.
  - by injection Hn as <-.
  - cbn [countWithin] in Hn.
    destruct (matchWithin pat (String c s)) as [m|] eqn:Hm; [|done].
    destruct (countWithin pat s) as [k|]; [|done].
    injection Hn as <-.
    pose proof (matchWithin_app _ _ t _ Hm) as Hs.
    rewrite string_app_cons in *. cbn [occurrences].
    rewrite Hs, (IH k eq_refl). lia.
Qed.

Lemma startsWith_other a pat c s :
  Ascii.eqb a c = false → startsWith (String a pat) (String c s) = false.
Proof. intros H. cbn [startsWith]. by rewrite H. Qed.

(** A stretch of text without the pattern's first character holds no
    occurrence, and none starts in it. *)
Lemma occurrences_skip a pat s t :
  has (Ascii.eqb a) s = false →
  occurrences (String a pat) (s +:+ t) = occurrences (String a pat) t.
Proof.
  induction s as [|c s IH]; [done |].
  cbn [has]. intros [Hc Hs]%orb_false_iff.
  rewrite string_app_cons. cbn [occurrences].
  rewrite <-string_app_cons at 1.
  by rewrite string_app_cons, startsWith_other, IH.
Qed.

Lemma startsWith_self pat t : startsWith pat (pat +:+ t) = true.
Proof.
  induction pat as [|a pat IH]; [by destruct t |].
  rewrite string_app_cons. cbn [startsWith].
  by rewrite Ascii.eqb_refl, IH.
Qed.

Lemma skip_app s t : skip (String.length s) (s +:+ t) = t.
Proof. induction s as [|c s IH]; [by destruct t | done]. Qed.

Lemma after_here a pat t :
  after (String a pat) (String a pat +:+ t) = Some t.
Proof.
  pose proof (startsWith_self (String a pat) t) as Hs.
  pose proof (skip_app (String a pat) t) as Hk.
  rewrite string_app_cons in *. cbn [after]. by rewrite Hs, Hk.
Qed.

Lemma after_within pat s t :
  countWithin pat s = Some 0%nat → after pat (s +:+ t) = after pat t.
Proof.
  induction s as [|c s IH]; [done |].
  cbn [countWithin]. intros Hn.
  destruct (matchWithin pat (String c s)) as [m|] eqn:Hm; [|done].
  destruct (countWithin pat s) as [k|]; [|done].
  destruct m, k; try done.
  pose proof (matchWithin_app _ _ t _ Hm) as Hs.
  rewrite string_app_cons in *. cbn [after]. rewrite Hs. by apply IH.
Qed.

Lemma before_here pat c t :
  startsWith pat (String c t) = true → before pat (String c t) = Some "".
Proof. intros H. cbn [before]. by rewrite H. Qed.

Lemma before_skip a pat s t :
  has (Ascii.eqb a) s = false →
  before (String a pat) (s +:+ t) = (λ r, s +:+ r) <$> before (String a pat) t.
Proof.
  induction s as [|c s IH]; intros Hs.
  - rewrite string_app_nil_l. by destruct (before _ t).
  - cbn [has] in Hs. apply orb_false_iff in Hs as [Hc Hs].
    rewrite string_app_cons. cbn [before].
    rewrite startsWith_other, (IH Hs) by done.
    by destruct (before _ t).
Qed.

(** The text up to a closing marker is the whole of a stretch that does not
    hold the marker's first character. *)
Lemma before_closing a pat s t :
  has (Ascii.eqb a) s = false →
  before (String a pat) (s +:+ String a pat +:+ t) = Some s.
Proof.
  intros Hs. rewrite before_skip by done.
  pose proof (startsWith_self (String a pat) t) as Hst.
  rewrite string_app_cons in *.
  rewrite before_here by done. simpl. by rewrite string_app_nil_r.
Qed.
End MarkupFacts.

(** ** The Escaper never writes markup *)

Section EscapedText.
Implicit Types (s t : string) (v : jsval).

Lemma escapeHtml_chars v :
  escapeHtml v =
    escapeChars (ToString (match v with JUndefined => JStr "" | _ => v end)).
Proof. unfold escapeHtml. apply escapeString_chars. Qed.

Lemma escapeHtml_text s : escapeHtml (JStr s) = escapeChars s.
Proof. apply escapeHtml_chars. Qed.

Lemma escapeHtml_no_markup v : has markup (escapeHtml v) = false.
Proof. rewrite escapeHtml_chars. apply escapeChars_no_markup. Qed.

Lemma has_none_weaken (p q : ascii → bool) s :
  (∀ c, p c = true → q c = true) → has q s = false → has p s = false.
Proof.
  intros Hpq. induction s as [|c s IH]; [done |].
  cbn [has]. intros [Hc Hs]%orb_false_iff.
  rewrite (IH Hs), orb_false_r.
  destruct (p c) eqn:Hp; [|done]. by rewrite (Hpq c Hp) in Hc.
Qed.

Lemma no_markup_lt s : has markup s = false → has (Ascii.eqb "<") s = false.
Proof.
  apply has_none_weaken. intros c Hc%Ascii.eqb_eq. by subst c.
Qed.

Lemma no_markup_dq s : has markup s = false → has (Ascii.eqb "034") s = false.
Proof.
  apply has_none_weaken. intros c Hc%Ascii.eqb_eq. by subst c.
Qed.

Lemma escapeHtml_no_lt v : has (Ascii.eqb "<") (escapeHtml v) = false.
Proof. apply no_markup_lt, escapeHtml_no_markup. Qed.

Lemma str_or_no_lt s t :
  has (Ascii.eqb "<") s = false → has (Ascii.eqb "<") t = false →
  has (Ascii.eqb "<") (str_or s t) = false.
Proof. unfold str_or. by destruct (truthy _). Qed.
End EscapedText.

Create HintDb markup.
#[local] Hint Resolve escapeHtml_no_lt : markup.

(** ** One card *)

(** Walking through a template whose pieces are fixed text or escaped
    values: a fixed piece is counted by evaluation, an escaped value is
    skipped because it holds no [<]. *)

Section CardFacts.
Implicit Types (f : gmap string jsval) (rec : AirtableRecord) (l : list jsval).

Lemma join_empty_cons (x : string) (l : list string) :
  join "" (x :: l) = x +:+ join "" l.
Proof. destruct l; [by rewrite string_app_nil_r | done]. Qed.

Lemma keptBullets_truthy f : Forall (λ b, truthy b = true) (keptBullets f).
Proof. apply list.Forall_forall. intros b Hb. by apply list_elem_of_filter in Hb as [? _]. Qed.

Lemma keptBullets_length f : (length (keptBullets f) ≤ 3)%nat.
Proof. unfold keptBullets. etrans; [apply length_filter | done]. Qed.

Lemma bulletsOf_empty f : bulletsOf f = "" ↔ keptBullets f = [].
Proof.
  unfold bulletsOf. destruct (keptBullets f) as [|b l]; [done |].
  rewrite fmap_cons, join_empty_cons. unfold renderBullet.
  rewrite !string_app_assoc, string_app_cons.
  split; intros H; discriminate H.
Qed.

Lemma bulletsHtmlOf_cases f :
  bulletsHtmlOf f =
    match keptBullets f with
    | [] => ""
    | _ => "<ul>" +:+ join "" (renderBullet <$> keptBullets f) +:+ "</ul>"
    end.
Proof.
  unfold bulletsHtmlOf. cbn [truthy].
  destruct (String.eqb_spec (bulletsOf f) "") as [He|Hne]; cbn [negb].
  - apply bulletsOf_empty in He. by rewrite He.
  - unfold bulletsOf in *.
    destruct (keptBullets f) as [|b l]; [by destruct Hne | done].
Qed.

(** Occurrences of a tag in the list items: [n] per item, when the tag
    occurs [n] times in the fixed text of one item. *)
Lemma occurrences_bullets p n l t :
  countWithin (String "<" p) "<li>" = Some n →
  countWithin (String "<" p) "</li>" = Some 0%nat →
  occurrences (String "<" p) (join "" (renderBullet <$> l) +:+ t) =
    (n * length l + occurrences (String "<" p) t)%nat.
Proof.
  intros Hopen Hclose. induction l as [|b l IH].
  { rewrite fmap_nil. cbn [join length]. rewrite string_app_nil_l. lia. }
  rewrite fmap_cons, join_empty_cons. unfold renderBullet at 1.
  rewrite !string_app_assoc.
  rewrite (countWithin_app _ _ _ _ Hopen).
  rewrite occurrences_skip by auto with markup.
  rewrite (countWithin_app _ _ _ _ Hclose), IH.
  cbn [length]. lia.
Qed.

Ltac count_piece :=
  first
    [ rewrite occurrences_skip by auto with markup
    | erewrite occurrences_bullets by reflexivity
    | erewrite countWithin_app by reflexivity ].

Ltac count_card :=
  unfold renderCard, highlightClassOf;
  rewrite bulletsHtmlOf_cases;
  match goal with
  | |- context [truthy (get ?f "Highlight")] =>
      destruct (truthy (get f "Highlight"))
  end;
  match goal with
  | |- context [keptBullets ?f] =>
      destruct (keptBullets f) eqn:?; cbv beta iota;
      [| match goal with H : keptBullets f = _ |- _ => rewrite <-H end]
  end;
  rewrite ?string_app_assoc, ?string_app_nil_l;
  repeat count_piece;
  cbn [length]; lia.

(** Each card opens exactly one section. *)
Lemma card_sections rec t :
  occurrences "<section" (renderCard rec +:+ t) =
    S (occurrences "<section" t).
Proof. count_card. Qed.

Lemma card_scripts rec t :
  occurrences "<script>" (renderCard rec +:+ t) = occurrences "<script>" t.
Proof. count_card. Qed.

Lemma card_lists rec t :
  occurrences "<ul>" (renderCard rec +:+ t) =
    ((if keptBullets (fields rec) is [] then 0 else 1)
     + occurrences "<ul>" t)%nat.
Proof. count_card. Qed.

Lemma card_items rec t :
  occurrences "<li>" (renderCard rec +:+ t) =
    (length (keptBullets (fields rec)) + occurrences "<li>" t)%nat.
Proof. count_card. Qed.

(** The card, cut at the markers the properties read. *)
Lemma renderCard_pieces rec :
  renderCard rec =
    (nl +:+ "    <section ") +:+ ("class=" +:+ dq)
      +:+ ("card" +:+ highlightClassOf (fields rec)) +:+ dq
      +:+ (">" +:+ nl +:+ "      ") +:+ "<h2>"
      +:+ escapeHtml (js_nullish (get (fields rec) "Title") (JStr ""))
      +:+ "</h2>"
      +:+ (nl +:+ "      <p>"
           +:+ escapeHtml (js_nullish (get (fields rec) "Body") (JStr ""))
           +:+ "</p>" +:+ nl +:+ "      " +:+ bulletsHtmlOf (fields rec)
           +:+ nl +:+ "    </section>").
Proof.
  unfold renderCard.
  generalize (highlightClassOf (fields rec)) (bulletsHtmlOf (fields rec)).
  generalize (escapeHtml (js_nullish (get (fields rec) "Title") (JStr ""))).
  generalize (escapeHtml (js_nullish (get (fields rec) "Body") (JStr ""))).
  intros body title highlightClass bulletsHtml.
  rewrite !string_app_assoc. reflexivity.
Qed.

Lemma highlightClassOf_no_markup f :
  has markup ("card" +:+ highlightClassOf f) = false.
Proof. unfold highlightClassOf. by destruct (truthy _). Qed.

Lemma card_class rec :
  between ("class=" +:+ dq) dq (renderCard rec) =
    Some ("card" +:+ highlightClassOf (fields rec)).
Proof.
  rewrite renderCard_pieces. unfold between.
  rewrite after_within by reflexivity.
  unfold dq at 1. rewrite string_app_cons, after_here. cbn [mbind option_bind].
  unfold dq. apply before_closing, no_markup_dq, highlightClassOf_no_markup.
Qed.

Lemma card_heading rec :
  between "<h2>" "</h2>" (renderCard rec) =
    Some (escapeHtml (js_nullish (get (fields rec) "Title") (JStr ""))).
Proof.
  rewrite renderCard_pieces. unfold between.
  rewrite after_within by reflexivity.
  rewrite after_within by reflexivity.
  rewrite after_within
    by (unfold highlightClassOf; by destruct (truthy _)).
  rewrite after_within by reflexivity.
  rewrite after_within by reflexivity.
  rewrite after_here. cbn [mbind option_bind].
  apply before_closing, escapeHtml_no_lt.
Qed.
End CardFacts.

(** ** Sorting *)

Section SortFacts.
Context {A : Type} (comparefn : A → A → option Z).
Implicit Types (x y : A) (l : list A).

Lemma sort_insert_perm x l : sort_insert comparefn x l ≡ₚ x :: l.
Proof.
  induction l as [|y l IH]; [done |].
  cbn [sort_insert]. destruct (_ <=? _); [done |].
  rewrite IH. apply Permutation_swap.
Qed.

Lemma Array_sort_perm l : Array_sort comparefn l ≡ₚ l.
Proof.
  induction l as [|x l IH]; [done |].
  cbn [Array_sort]. by rewrite sort_insert_perm, IH.
Qed.

Lemma Array_sort_length l : length (Array_sort comparefn l) = length l.
Proof. by rewrite Array_sort_perm. Qed.

(** An array whose neighbours already compare as in order is left as it is. *)
Lemma Array_sort_in_order l :
  Sorted (λ x y, SortCompare comparefn x y ≤ 0) l →
  Array_sort comparefn l = l.
Proof.
  induction 1 as [|x l Hl IH Hhd]; [done |].
  cbn [Array_sort]. rewrite IH.
  destruct Hhd as [|y l Hxy]; [done |].
  cbn [sort_insert]. by rewrite (proj2 (Z.leb_le _ _)).
Qed.

(** The comparator is the difference of a key, on the elements of interest. *)
Context (key : A → Z) (P : A → Prop).
Hypothesis comparefn_key :
  ∀ x y, P x → P y → comparefn x y = Some (key x - key y).

Lemma SortCompare_key x y : P x → P y → SortCompare comparefn x y = key x - key y.
Proof. intros Hx Hy. unfold SortCompare. by rewrite comparefn_key. Qed.

Lemma Array_sort_Forall l : Forall P l → Forall P (Array_sort comparefn l).
Proof. by rewrite Array_sort_perm. Qed.

Lemma sort_insert_sorted x l :
  P x → Forall P l →
  StronglySorted (λ x y, key x ≤ key y) l →
  StronglySorted (λ x y, key x ≤ key y) (sort_insert comparefn x l).
Proof.
  intros Hx Hl Hs. induction Hs as [|y l Hs IH Hy]; cbn [sort_insert].
  { repeat constructor. }
  apply Forall_cons in Hl as [HPy Hl].
  rewrite SortCompare_key by done.
  destruct (Z.leb_spec (key x - key y) 0) as [Hle|Hgt].
  - constructor; [by constructor |].
    constructor; [lia |].
    eapply Forall_impl; [exact Hy |]. intros z Hz. cbn beta in Hz. lia.
  - constructor; [by apply IH |].
    rewrite sort_insert_perm. constructor; [lia | done].
Qed.

Lemma Array_sort_sorted l :
  Forall P l → StronglySorted (λ x y, key x ≤ key y) (Array_sort comparefn l).
Proof.
  induction l as [|x l IH]; intros Hl; cbn [Array_sort]; [constructor |].
  apply Forall_cons in Hl as [Hx Hl].
  apply sort_insert_sorted; [done | by apply Array_sort_Forall | by apply IH].
Qed.

(** Stability: the elements with a given key keep their relative order. *)
Lemma sort_insert_stable k x l :
  P x → Forall P l →
  filter (λ y, key y = k) (sort_insert comparefn x l) =
    filter (λ y, key y = k) (x :: l).
Proof.
  intros Hx. induction l as [|y l IH]; intros Hl; [done |].
  apply Forall_cons in Hl as [Hy Hl]. cbn [sort_insert].
  rewrite SortCompare_key by done.
  destruct (Z.leb_spec (key x - key y) 0) as [Hle|Hgt]; [done |].
  rewrite filter_cons, (IH Hl), !filter_cons.
  repeat case_decide; try done; lia.
Qed.

Lemma Array_sort_stable k l :
  Forall P l →
  filter (λ y, key y = k) (Array_sort comparefn l) =
    filter (λ y, key y = k) l.
Proof.
  induction l as [|x l IH]; intros Hl; [done |].
  apply Forall_cons in Hl as [Hx Hl]. cbn [Array_sort].
  rewrite sort_insert_stable by (done || by apply Array_sort_Forall).
  by rewrite !filter_cons, (IH Hl).
Qed.
End SortFacts.

(** ** The Card Renderer *)

Section RenderCardsFacts.
Implicit Types (rec : AirtableRecord) (sections : list AirtableRecord).

Lemma order_or_zero (v : jsval) :
  isOptionalNumber v = true →
  ToNumber (js_or v (JNum 0)) = Some (match v with JNum n => n | _ => 0 end).
Proof.
  destruct v as [| | |n|]; try done. intros _.
  unfold js_or. cbn [truthy].
  by destruct (Z.eqb_spec n 0) as [->|?].
Qed.

Lemma byOrder_key a b :
  hasOrder a → hasOrder b → byOrder a b = Some (orderOf a - orderOf b).
Proof.
  unfold hasOrder, byOrder, orderOf, js_sub. intros Ha Hb.
  by rewrite !order_or_zero.
Qed.

Lemma join_nl_cons (x y : string) (l : list string) :
  join nl (x :: y :: l) = x +:+ nl +:+ join nl (y :: l).
Proof. reflexivity. Qed.

Lemma cards_sections (l : list AirtableRecord) :
  occurrences "<section" (join nl (renderCard <$> l)) = length l.
Proof.
  induction l as [|a l IH]; [done |].
  destruct l as [|b l].
  - cbn [fmap list_fmap join length].
    rewrite <-(string_app_nil_r (renderCard a)). by rewrite card_sections.
  - rewrite !fmap_cons, join_nl_cons, card_sections.
    rewrite occurrences_skip by done.
    rewrite <-!fmap_cons, IH. done.
Qed.

Lemma renderCards_html sections :
  (renderCards sections).1 = join nl (renderCard <$> (renderCards sections).2).
Proof. reflexivity. Qed.
End RenderCardsFacts.

(** ** The Page Assembler *)

Section PageFacts.
Implicit Types (globals : gmap string jsval) (s t : string).

Lemma document_title title description heroTitle heroSubtitle cards footer :
  has (Ascii.eqb "<") title = false →
  between "<title>" "</title>"
    (documentTemplate title description heroTitle heroSubtitle cards footer)
  = Some title.
Proof.
  intros Htitle. unfold documentTemplate, between.
  repeat (rewrite after_within by reflexivity).
  change "  <title>" with ("  " +:+ "<title>").
  rewrite string_app_assoc, after_within by reflexivity.
  rewrite after_here. cbn [mbind option_bind].
  by apply before_closing.
Qed.

Lemma seoTitleOf_no_lt globals : has (Ascii.eqb "<") (seoTitleOf globals) = false.
Proof.
  unfold seoTitleOf, heroTitleOf.
  repeat apply str_or_no_lt; auto with markup.
Qed.

Lemma escapeHtml_optional (v : jsval) :
  isOptionalText v = true → escapeHtml v = escapeChars (textOf v).
Proof. destruct v; try done. intros _. apply escapeHtml_text. Qed.

Lemma escapeHtml_or_empty (v : jsval) :
  isNullableText v = true →
  escapeHtml (js_or v (JStr "")) = escapeChars (textOf v).
Proof.
  destruct v as [| | | |s]; try done. intros _.
  unfold js_or. cbn [truthy textOf].
  destruct (String.eqb_spec s "") as [->|?]; cbn [negb]; apply escapeHtml_text.
Qed.

Lemma str_or_cons s t rest :
  str_or s (firstNonEmpty rest t) = firstNonEmpty (s :: rest) t.
Proof.
  unfold str_or. cbn [truthy firstNonEmpty]. by destruct (String.eqb s "").
Qed.

Lemma seoTitleOf_first globals :
  seoTitleOf globals =
    firstNonEmpty [escapeHtml (get globals "SEO Title"); heroTitleOf globals]
      "Simple Web".
Proof. unfold seoTitleOf. by rewrite <-!str_or_cons. Qed.

Lemma seoTitleOf_text globals :
  isOptionalText (get globals "SEO Title") = true →
  isNullableText (get globals "Hero Title") = true →
  seoTitleOf globals = titleSpec globals.
Proof.
  intros Hseo Hhero. rewrite seoTitleOf_first. unfold heroTitleOf, titleSpec.
  by rewrite escapeHtml_optional, escapeHtml_or_empty.
Qed.
End PageFacts.

(** ** The run *)

Section RunFacts.
Context (env : Env).
Implicit Types (s : State) (res : Response).

Lemma bind_run {A B : Type} (m : M A) (k : A → M B) s :
  (m ≫= k) s =
    match m s with
    | (inl e, s') => (inl e, s')
    | (inr a, s') => k a s'
    end.
Proof. reflexivity. Qed.

(** A call of [fetchTable] sends one request, whatever comes back, and
    leaves the file system alone. *)
Lemma fetchTable_state tableName params s :
  (fetchTable env tableName params s).2 = sent env s (tableUrl env tableName params).
Proof.
  unfold fetchTable. rewrite bind_run. unfold doFetch.
  destruct (fetch env _ _) as [res|]; [|done].
  destruct (negb (ok res)); [done |]. by destruct (json res).
Qed.

Lemma fetchTable_failure tableName params s res :
  fetch env (tableUrl env tableName params) (authorization env) = Some res →
  ok res = false →
  fetchTable env tableName params s =
    (inl (fetchError tableName res), sent env s (tableUrl env tableName params)).
Proof.
  intros Hres Hok. unfold fetchTable. rewrite bind_run. unfold doFetch.
  by rewrite Hres, Hok.
Qed.

Lemma fetchTable_success tableName params s res records :
  fetch env (tableUrl env tableName params) (authorization env) = Some res →
  ok res = true →
  json res = JsonObject records →
  fetchTable env tableName params s =
    (inr records, sent env s (tableUrl env tableName params)).
Proof.
  intros Hres Hok Hjson. unfold fetchTable. rewrite bind_run. unfold doFetch.
  by rewrite Hres, Hok, Hjson.
Qed.

(** The two tables are fetched from different addresses. *)
Lemma string_app_inv_head (s t u : string) : s +:+ t = s +:+ u → t = u.
Proof.
  induction s as [|c s IH]; [done |].
  rewrite !string_app_cons. intros [=]. by apply IH.
Qed.

Lemma tableUrl_distinct :
  tableUrl env GLOBALS_TABLE "?maxRecords=1" ≠ tableUrl env SECTIONS_TABLE "".
Proof.
  unfold tableUrl. intros H.
  do 3 apply string_app_inv_head in H. discriminate H.
Qed.

Lemma console_log_run line s :
  console_log line s =
    (inr tt, {| requests := requests s; console := console s ++ [Log line];
                dirs := dirs s; files := files s |}).
Proof. reflexivity. Qed.

Lemma main_globals_failure s res :
  fetch env (tableUrl env GLOBALS_TABLE "?maxRecords=1") (authorization env)
    = Some res →
  ok res = false →
  ∃ s', main env s = (inl (fetchError GLOBALS_TABLE res), s')
        ∧ requests s' =
            requests s ++
              [(tableUrl env GLOBALS_TABLE "?maxRecords=1", authorization env)]
        ∧ dirs s' = dirs s ∧ files s' = files s.
Proof.
  intros Hres Hok. eexists. unfold main.
  rewrite bind_run, console_log_run, bind_run.
  rewrite (fetchTable_failure _ _ _ res) by done.
  split; [reflexivity | done].
Qed.

Lemma main_sections_failure s res :
  fetch env (tableUrl env SECTIONS_TABLE "") (authorization env) = Some res →
  ok res = false →
  ∃ e s' asked,
    main env s = (inl e, s')
    ∧ requests s' = requests s ++ asked
    ∧ asked `prefix_of`
        [(tableUrl env GLOBALS_TABLE "?maxRecords=1", authorization env);
         (tableUrl env SECTIONS_TABLE "", authorization env)]
    ∧ dirs s' = dirs s ∧ files s' = files s.
Proof.
  intros Hres Hok. unfold main.
  rewrite bind_run, console_log_run, bind_run.
  destruct (fetchTable env GLOBALS_TABLE _ _) as [[e1|globalsRecords] s1] eqn:H1;
    apply (f_equal snd) in H1; rewrite fetchTable_state in H1; cbn [snd] in H1;
    subst s1.
  { eexists _, _, [_]. split; [reflexivity |]. cbn [sent requests dirs files].
    repeat split; try done. by eexists [_]. }
  rewrite bind_run, (fetchTable_failure _ _ _ res) by done.
  eexists _, _, [_; _]. split; [reflexivity |].
  cbn [sent requests dirs files]. rewrite <-app_assoc. done.
Qed.

(** A run of [main] that throws and has left the files as they were gives
    exit code 1 and these files. *)
Lemma script_error s e s' :
  main env s = (inl e, s') →
  files s' = files s →
  (script env s).1 = 1 ∧ files (script env s).2 = files s.
Proof.
  intros Hmain Hfiles. unfold script.
  destruct (_ || _); [done |].
  rewrite Hmain. cbn [fst snd files]. by split.
Qed.

(** A run in which both tables are delivered and the disk takes the file. *)
Lemma main_success s gres sres globalsRecords sectionsRecords :
  fetch env (tableUrl env GLOBALS_TABLE "?maxRecords=1") (authorization env)
    = Some gres →
  ok gres = true → json gres = JsonObject (Some globalsRecords) →
  fetch env (tableUrl env SECTIONS_TABLE "") (authorization env) = Some sres →
  ok sres = true → json sres = JsonObject (Some sectionsRecords) →
  fsFails env "public" = false →
  fsFails env "public/index.html" = false →
  ∃ s', main env s = (inr tt, s')
        ∧ files s' =
            <["public/index.html" :=
                documentHtml (globalsOf globalsRecords)
                  (renderCards sectionsRecords).1]> (files s).
Proof.
  intros Hg Hgok Hgjson Hs Hsok Hsjson Hdir Hfile. eexists. unfold main.
  rewrite bind_run, console_log_run, bind_run.
  rewrite (fetchTable_success _ _ _ gres (Some globalsRecords)) by done.
  rewrite bind_run.
  rewrite (fetchTable_success _ _ _ sres (Some sectionsRecords)) by done.
  rewrite bind_run. cbn [from_option]. unfold mret at 1, M_ret at 1.
  rewrite bind_run. unfold mret at 1, M_ret at 1. cbv zeta.
  rewrite bind_run. unfold fs_mkdir. rewrite Hdir.
  rewrite bind_run. unfold fs_writeFile. rewrite Hfile.
  rewrite console_log_run. split; [reflexivity | done].
Qed.
End RunFacts.

(** ** Further facts the claims use *)

Section SortedArrays.
Context {A : Type} (comparefn : A → A → option Z).
Context (key : A → Z) (P : A → Prop).
Hypothesis comparefn_key :
  ∀ x y, P x → P y → comparefn x y = Some (key x - key y).

Lemma sorted_by_key_in_order (l : list A) :
  Forall P l →
  StronglySorted (λ x y, key x ≤ key y) l →
  Sorted (λ x y, SortCompare comparefn x y ≤ 0) l.
Proof.
  intros Hl Hs. induction Hs as [|x l Hs IH Hx]; [constructor |].
  apply Forall_cons in Hl as [HPx Hl]. constructor; [by apply IH |].
  destruct l as [|y l]; constructor.
  apply Forall_cons in Hl as [HPy _]. apply Forall_cons in Hx as [Hxy _].
  rewrite (SortCompare_key comparefn key P comparefn_key) by done. lia.
Qed.

(** The sort leaves an array as it is exactly when it is in order. *)
Lemma Array_sort_fixed (l : list A) :
  Forall P l →
  Array_sort comparefn l = l ↔ StronglySorted (λ x y, key x ≤ key y) l.
Proof.
  intros Hl. split.
  - intros <-. by apply (Array_sort_sorted comparefn key P).
  - intros Hs. by apply Array_sort_in_order, sorted_by_key_in_order.
Qed.

Lemma Array_sort_twice (l : list A) :
  Forall P l →
  Array_sort comparefn (Array_sort comparefn l) = Array_sort comparefn l.
Proof.
  intros Hl. apply Array_sort_fixed.
  - by apply Array_sort_Forall.
  - by apply (Array_sort_sorted comparefn key P).
Qed.
End SortedArrays.

Section TextFacts.
Implicit Types (s : string) (v : jsval) (l : list jsval).

Lemma escapeChars_plain s : has significant s = false → escapeChars s = s.
Proof.
  induction s as [|c s IH]; [done |].
  cbn [has escapeChars]. intros [Hc Hs]%orb_false_iff.
  by rewrite escapeChar_keeps, IH.
Qed.

Lemma escapeChars_empty s : escapeChars s = "" ↔ s = "".
Proof.
  split; [| by intros ->].
  intros H. pose proof (escapeChars_length s) as Hlen.
  rewrite H in Hlen. destruct s; [done | cbn in Hlen; lia].
Qed.

(** On text bullets, the values that [filter(Boolean)] keeps are the
    non-empty texts, and each is rendered from its escaped text. *)
Lemma kept_text_bullets l :
  Forall (λ b, isNullableText b = true) l →
  renderBullet <$> filter (λ b, truthy b = true) l =
    (λ b, "<li>" +:+ escapeChars b +:+ "</li>")
      <$> filter (λ b, b ≠ "") (textOf <$> l).
Proof.
  induction 1 as [|v l Hv Hl IH]; [done |].
  rewrite fmap_cons, !filter_cons.
  destruct v as [| | | |s]; try done; cbn [truthy textOf].
  destruct (String.eqb_spec s "") as [->|Hs]; cbn [negb];
    repeat case_decide; try done.
  rewrite !fmap_cons, IH. unfold renderBullet at 1.
  by rewrite escapeHtml_text.
Qed.

Lemma nonEmptyBullets_kept (f : gmap string jsval) :
  hasTextBullets f →
  renderBullet <$> keptBullets f =
    (λ b, "<li>" +:+ escapeChars b +:+ "</li>") <$> nonEmptyBullets f.
Proof. apply kept_text_bullets. Qed.
End TextFacts.

(** * The claims *)

Section Claims.
Implicit Types (rec : AirtableRecord) (sections : list AirtableRecord).
Implicit Types (globals : gmap string jsval) (t u : string).

(** C1.  The Card Renderer emits one [<section>] block per input record,
    none filtered out: the HTML is the blocks of a rearrangement [sorted] of
    the input, joined with a newline, and it opens as many sections as there
    are records.  [sorted] is in ascending [Order] (an absent [Order] counts
    as 0), and the records of any one [Order] stand in it in their input
    sequence. *)
Theorem renderCards_ordered sections :
  Forall hasOrder sections →
  ∃ sorted,
    (renderCards sections).1 = join nl (renderCard <$> sorted)
    ∧ sorted ≡ₚ sections
    ∧ occurrences "<section" (renderCards sections).1 = length sections
    ∧ StronglySorted (λ a b, orderOf a ≤ orderOf b) sorted
    ∧ ∀ k, filter (λ r, orderOf r = k) sorted
           = filter (λ r, orderOf r = k) sections.
Proof.
  intros Htyped. exists (Array_sort byOrder sections).
  split; [done |]. split; [apply Array_sort_perm |].
  split.
  { cbn [renderCards fst]. by rewrite cards_sections, Array_sort_length. }
  split.
  - by apply (Array_sort_sorted byOrder orderOf hasOrder byOrder_key).
  - intros k. by apply (Array_sort_stable byOrder orderOf hasOrder byOrder_key).
Qed.

Lemma renderCards_ordered_witness :
  Forall hasOrder sampleCards
  ∧ ∃ sorted,
      (renderCards sampleCards).1 = join nl (renderCard <$> sorted)
      ∧ sorted ≡ₚ sampleCards
      ∧ occurrences "<section" (renderCards sampleCards).1
          = length sampleCards
      ∧ StronglySorted (λ a b, orderOf a ≤ orderOf b) sorted
      ∧ ∀ k, filter (λ r, orderOf r = k) sorted
             = filter (λ r, orderOf r = k) sampleCards.
Proof.
  assert (Forall hasOrder sampleCards) as H
    by (repeat constructor; vm_compute; reflexivity).
  split; [exact H | exact (renderCards_ordered sampleCards H)].
Defined.

(** The specification's example: orders 3, 1, 2 come out as 1, 2, 3. *)
Example renderCards_sample_order :
  orderOf <$> (renderCards sampleCards).2 = [1; 2; 3]
  ∧ rec_id <$> (renderCards sampleCards).2 = ["recB"; "recC"; "recA"].
Proof. by vm_compute. Qed.

(** C2.  On a text the Escaper replaces every [&], [<], [>] and double
    quote by its entity and keeps every other character: it agrees with the
    one-pass table [escapeChars], so the ampersand of an entity written for
    [<], [>] or a quote is not escaped again.  No markup character is left,
    and a text without the four characters comes back as it is;
    [<script>] inside a title becomes [&lt;script&gt;]; the [<h2>] of the
    card holds the escaped title, and the card holds no [<script>] tag. *)
Theorem escapeHtml_escapes (s : string) rec :
  fields rec !! "Title" = Some (JStr s) →
  escapeHtml (JStr s) = escapeChars s
  ∧ has markup (escapeHtml (JStr s)) = false
  ∧ (has significant s = false → escapeHtml (JStr s) = s)
  ∧ (∀ t u, s = t +:+ "<script>" +:+ u →
       escapeHtml (JStr s)
         = escapeChars t +:+ "&lt;script&gt;" +:+ escapeChars u)
  ∧ between "<h2>" "</h2>" (renderCard rec) = Some (escapeChars s)
  ∧ occurrences "<script>" (renderCard rec) = 0%nat.
Proof.
  intros Htitle. split; [apply escapeHtml_text |].
  split; [apply escapeHtml_no_markup |]. split; [| split; [| split]].
  - intros Hplain. by rewrite escapeHtml_text, escapeChars_plain.
  - intros t u ->. by rewrite escapeHtml_text, !escapeChars_app.
  - rewrite card_heading. unfold get. rewrite Htitle.
    cbn [from_option id js_nullish].
    by rewrite escapeHtml_text.
  - rewrite <-(string_app_nil_r (renderCard rec)). by rewrite card_scripts.
Qed.

Lemma escapeHtml_escapes_witness :
  fields cardA !! "Title" = Some (JStr "<script>")
  ∧ between "<h2>" "</h2>" (renderCard cardA) = Some "&lt;script&gt;".
Proof.
  assert (fields cardA !! "Title" = Some (JStr "<script>")) as H
    by (vm_compute; reflexivity).
  split; [exact H |].
  pose proof (escapeHtml_escapes "<script>" cardA H)
    as (_ & _ & _ & _ & Hheading & _).
  exact Hheading.
Defined.

(** C3.  What the card carries as class attribute: [card] when [Highlight]
    is absent or falsy, and [card card highlight] when it is truthy (the
    conditional adds [ card highlight] after the [card] of the template). *)
Theorem card_class_attribute rec :
  between ("class=" +:+ dq) dq (renderCard rec) =
    Some (if truthy (get (fields rec) "Highlight")
          then "card card highlight" else "card").
Proof.
  rewrite card_class. unfold highlightClassOf. by destruct (truthy _).
Qed.

Example card_class_highlighted :
  between ("class=" +:+ dq) dq (renderCard cardA) = Some "card card highlight".
Proof. by vm_compute. Qed.

(** C4.  The Escaper on an absent input: [undefined] gives the empty
    string, [null] gives the text [null]. *)
Theorem escapeHtml_absent :
  escapeHtml JUndefined = "" ∧ escapeHtml JNull = "null".
Proof. by vm_compute. Qed.

(** The one call that hands a field to the Escaper as it is: a [null] SEO
    title becomes the title of the page. *)
Example seoTitleOf_null :
  seoTitleOf {[ "SEO Title" := JNull; "Hero Title" := JStr "Welcome" ]}
    = "null".
Proof. by vm_compute. Qed.

Example card_class_plain :
  between ("class=" +:+ dq) dq (renderCard cardB) = Some "card".
Proof. by vm_compute. Qed.

(** The fallback chain of the title, where it works: for global settings
    whose SEO title is a text or missing and whose hero title is a text,
    [null] or missing, the
    [<title>] of the assembled document is the first non-empty one of the
    escaped SEO title and the escaped hero title, and [Simple Web] when both
    are empty; an SEO title that is present but empty falls through like an
    absent one. *)
Theorem document_title_fallback globals cardsHtml :
  isOptionalText (get globals "SEO Title") = true →
  isNullableText (get globals "Hero Title") = true →
  between "<title>" "</title>" (documentHtml globals cardsHtml)
    = Some (titleSpec globals)
  ∧ titleSpec globals =
      firstNonEmpty
        [escapeChars (textOf (get globals "SEO Title"));
         escapeChars (textOf (get globals "Hero Title"))] "Simple Web"
  ∧ (textOf (get globals "SEO Title") ≠ "" →
       titleSpec globals = escapeChars (textOf (get globals "SEO Title")))
  ∧ (textOf (get globals "SEO Title") = "" →
       titleSpec globals =
         firstNonEmpty [escapeChars (textOf (get globals "Hero Title"))]
           "Simple Web").
Proof.
  intros Hseo Hhero. split; [| split; [done | split]].
  - unfold documentHtml. cbv zeta.
    rewrite document_title by apply seoTitleOf_no_lt.
    by rewrite seoTitleOf_text.
  - intros Hne. unfold titleSpec. cbn [firstNonEmpty].
    destruct (String.eqb_spec (escapeChars (textOf (get globals "SEO Title"))) "")
      as [He|?]; [| done].
    destruct Hne. by apply escapeChars_empty.
  - intros He. unfold titleSpec. by rewrite He.
Qed.

Lemma document_title_fallback_witness :
  isOptionalText (get sampleGlobals "SEO Title") = true
  ∧ isNullableText (get sampleGlobals "Hero Title") = true
  ∧ between "<title>" "</title>" (documentHtml sampleGlobals "")
      = Some (titleSpec sampleGlobals)
  ∧ titleSpec sampleGlobals = "Welcome".
Proof.
  assert (isOptionalText (get sampleGlobals "SEO Title") = true) as Hseo
    by (vm_compute; reflexivity).
  assert (isNullableText (get sampleGlobals "Hero Title") = true) as Hhero
    by (vm_compute; reflexivity).
  split; [exact Hseo |]. split; [exact Hhero |].
  split; [| vm_compute; reflexivity].
  exact (proj1 (document_title_fallback sampleGlobals "" Hseo Hhero)).
Defined.

(** C5.  The fallback chain of the title does not hold for every global
    settings value.  An SEO title that is [null] is handed to the Escaper
    as it is, which makes the text [null] of it: the [<title>] of the
    document is then [null], whatever the hero title is, and neither the
    hero title nor [Simple Web].  An SEO title that is missing falls
    through as the claim says. *)
Theorem document_title_null_seo globals cardsHtml :
  between "<title>" "</title>"
    (documentHtml (<["SEO Title" := JNull]> globals) cardsHtml)
    = Some "null"
  ∧ between "<title>" "</title>"
      (documentHtml (delete "SEO Title" globals) cardsHtml)
    = Some (firstNonEmpty [heroTitleOf globals] "Simple Web").
Proof.
  split.
  - unfold documentHtml. cbv zeta.
    rewrite document_title by apply seoTitleOf_no_lt.
    unfold seoTitleOf, get at 1. by rewrite lookup_insert_eq.
  - unfold documentHtml. cbv zeta.
    rewrite document_title by apply seoTitleOf_no_lt.
    rewrite seoTitleOf_first. unfold heroTitleOf, get.
    rewrite lookup_delete_eq, lookup_delete_ne by done.
    done.
Qed.

(** The input on which the claim and the code part: the hero title is
    [Welcome], the SEO title is [null], and the title of the page is
    [null]. *)
Example document_title_null_seo_sample :
  between "<title>" "</title>"
    (documentHtml {[ "SEO Title" := JNull; "Hero Title" := JStr "Welcome" ]} "")
    = Some "null"
  ∧ between "<title>" "</title>"
      (documentHtml {[ "Hero Title" := JStr "Welcome" ]} "")
    = Some "Welcome".
Proof. by vm_compute. Qed.

(** C6.  For a record whose bullets are texts or absent, the card lists
    exactly the non-empty bullets, in slot order, each escaped inside its
    own [<li>]; they stand inside one [<ul>] when there is at least one, and
    the card holds no [<ul>] at all when there is none. *)
Theorem card_bullets rec :
  hasTextBullets (fields rec) →
  bulletsHtmlOf (fields rec) =
    match nonEmptyBullets (fields rec) with
    | [] => ""
    | bullets =>
        "<ul>"
          +:+ join "" ((λ b, "<li>" +:+ escapeChars b +:+ "</li>") <$> bullets)
          +:+ "</ul>"
    end
  ∧ occurrences "<li>" (renderCard rec)
      = length (nonEmptyBullets (fields rec))
  ∧ occurrences "<ul>" (renderCard rec)
      = (if nonEmptyBullets (fields rec) is [] then 0 else 1)%nat.
Proof.
  intros Htext. pose proof (nonEmptyBullets_kept _ Htext) as Hkept.
  assert (length (keptBullets (fields rec))
          = length (nonEmptyBullets (fields rec))) as Hlen.
  { apply (f_equal length) in Hkept. by rewrite !length_fmap in Hkept. }
  split; [| split].
  - rewrite bulletsHtmlOf_cases, Hkept.
    destruct (keptBullets (fields rec)), (nonEmptyBullets (fields rec));
      done.
  - rewrite <-(string_app_nil_r (renderCard rec)), card_items.
    cbn [occurrences]. lia.
  - rewrite <-(string_app_nil_r (renderCard rec)), card_lists.
    destruct (keptBullets (fields rec)), (nonEmptyBullets (fields rec));
      done.
Qed.

Lemma card_bullets_witness :
  hasTextBullets (fields cardA)
  ∧ nonEmptyBullets (fields cardA) = ["A"; "B"]
  ∧ bulletsHtmlOf (fields cardA) = "<ul><li>A</li><li>B</li></ul>"
  ∧ occurrences "<li>" (renderCard cardA) = 2%nat.
Proof.
  assert (hasTextBullets (fields cardA)) as H
    by (repeat constructor; vm_compute; reflexivity).
  split; [exact H |]. split; [vm_compute; reflexivity |].
  split; [vm_compute; reflexivity |].
  exact (proj1 (proj2 (card_bullets cardA H))).
Defined.

(** The specification's example: a record with no bullets has no list. *)
Example card_without_bullets :
  bulletsHtmlOf (fields cardB) = ""
  ∧ occurrences "<ul>" (renderCard cardB) = 0%nat.
Proof. by vm_compute. Qed.

(** C7.  On a text that holds one of [&], [<], [>] or a double quote,
    escaping twice differs from escaping once. *)
Theorem escapeHtml_not_idempotent (x : string) :
  has significant x = true →
  escapeHtml (JStr (escapeHtml (JStr x))) ≠ escapeHtml (JStr x).
Proof.
  intros Hx Heq. rewrite !escapeHtml_text in Heq.
  pose proof (escapeChars_longer (escapeChars x)) as Hlen.
  rewrite escapeChars_amp, Heq in Hlen. specialize (Hlen Hx). lia.
Qed.

Lemma escapeHtml_not_idempotent_witness :
  has significant "a<b" = true
  ∧ escapeHtml (JStr (escapeHtml (JStr "a<b"))) ≠ escapeHtml (JStr "a<b").
Proof.
  assert (has significant "a<b" = true) as H by (vm_compute; reflexivity).
  split; [exact H | exact (escapeHtml_not_idempotent "a<b" H)].
Defined.

(** C8, as the claim states it, fails: the call reorders the array it is
    given.  Here the array holds the orders 3, 1, 2 before the call and
    1, 2, 3 after it. *)
Lemma renderCards_reorders_array :
  (renderCards sampleCards).2 = [cardB; cardC; cardA]
  ∧ (renderCards sampleCards).2 ≠ sampleCards.
Proof. split; [by vm_compute | by vm_compute]. Qed.

(** C8, amended.  The Card Renderer computes its result from its input
    alone, and equal inputs give equal results.  Its one effect is on the
    array it is given, which it sorts in place: after the call the array
    holds the same records, none added, dropped or changed, in the order
    in which they were rendered.  The array is left as it was exactly when
    it was already in ascending [Order], so a second call on the same array
    returns the same HTML and leaves the array alone. *)
Theorem renderCards_sorts_in_place sections :
  Forall hasOrder sections →
  (renderCards sections).2 ≡ₚ sections
  ∧ (renderCards sections).1
      = join nl (renderCard <$> (renderCards sections).2)
  ∧ ((renderCards sections).2 = sections
     ↔ StronglySorted (λ a b, orderOf a ≤ orderOf b) sections)
  ∧ renderCards (renderCards sections).2 = renderCards sections
  ∧ ∀ sections', sections' = sections →
      renderCards sections' = renderCards sections.
Proof.
  intros Htyped. split; [apply Array_sort_perm |]. split; [done |].
  split; [| split].
  - by apply (Array_sort_fixed byOrder orderOf hasOrder byOrder_key).
  - unfold renderCards. cbn [snd].
    by rewrite (Array_sort_twice byOrder orderOf hasOrder byOrder_key).
  - by intros ? ->.
Qed.

Lemma renderCards_sorts_in_place_witness :
  Forall hasOrder sampleCards
  ∧ (renderCards sampleCards).2 ≡ₚ sampleCards
  ∧ renderCards (renderCards sampleCards).2 = renderCards sampleCards.
Proof.
  assert (Forall hasOrder sampleCards) as H
    by (repeat constructor; vm_compute; reflexivity).
  pose proof (renderCards_sorts_in_place sampleCards H) as (Hp & _ & _ & Hi & _).
  split; [exact H |]. split; [exact Hp | exact Hi].
Defined.

(** C9.  When the answer to the request for a table has a status outside
    200-299, [fetchTable] throws an error whose message holds the table
    name, the status code, the status text and the body of the answer,
    having sent that one request and no other.  When the table is one of
    the two that [main] fetches, [main] throws as well: it has asked for
    each table at most once, made no directory and written no file, and the
    script exits with code 1, the files being what they were. *)
Theorem fetch_failure_aborts env (s : State) tableName params res :
  fetch env (tableUrl env tableName params) (authorization env) = Some res →
  ok res = false →
  fetchTable env tableName params s =
    (inl (Error ("Failed to fetch " +:+ tableName +:+ ": "
                   +:+ Z_to_string (status res) +:+ " " +:+ statusText res
                   +:+ nl +:+ text res)),
     {| requests :=
          requests s ++ [(tableUrl env tableName params, authorization env)];
        console := console s; dirs := dirs s; files := files s |})
  ∧ ((tableName = GLOBALS_TABLE ∧ params = "?maxRecords=1")
     ∨ (tableName = SECTIONS_TABLE ∧ params = "") →
     ∃ e s' asked,
       main env s = (inl e, s')
       ∧ requests s' = requests s ++ asked
       ∧ asked `prefix_of`
           [(tableUrl env GLOBALS_TABLE "?maxRecords=1", authorization env);
            (tableUrl env SECTIONS_TABLE "", authorization env)]
       ∧ NoDup asked
       ∧ dirs s' = dirs s ∧ files s' = files s
       ∧ (script env s).1 = 1 ∧ files (script env s).2 = files s).
Proof.
  intros Hres Hok. split; [by apply fetchTable_failure |].
  assert (NoDup
            [(tableUrl env GLOBALS_TABLE "?maxRecords=1", authorization env);
             (tableUrl env SECTIONS_TABLE "", authorization env)]) as Hnd.
  { apply NoDup_cons. split; [| apply NoDup_singleton].
    intros Hin%list_elem_of_singleton. apply (f_equal fst) in Hin.
    by apply tableUrl_distinct in Hin. }
  intros [[-> ->]|[-> ->]].
  - destruct (main_globals_failure env s res Hres Hok)
      as (s' & Hmain & Hreq & Hdirs & Hfiles).
    exists (fetchError GLOBALS_TABLE res), s',
      [(tableUrl env GLOBALS_TABLE "?maxRecords=1", authorization env)].
    split; [done |]. split; [done |]. split; [by eexists [_] |].
    split; [apply NoDup_singleton |]. split; [done |]. split; [done |].
    by apply (script_error env s (fetchError GLOBALS_TABLE res) s').
  - destruct (main_sections_failure env s res Hres Hok)
      as (e & s' & asked & Hmain & Hreq & Hpre & Hdirs & Hfiles).
    exists e, s', asked.
    split; [done |]. split; [done |]. split; [done |]. split.
    { destruct Hpre as [rest Hpre]. rewrite Hpre in Hnd.
      by apply NoDup_app in Hnd as [? _]. }
    split; [done |]. split; [done |].
    by apply (script_error env s e s').
Qed.

Lemma fetch_failure_aborts_witness :
  ok (mkResponse 404 "Not Found" "NOT_FOUND" JsonRejected) = false
  ∧ fetchTable notFoundEnv SECTIONS_TABLE "" initialState =
      (inl (Error ("Failed to fetch Sections: 404 Not Found"
                     +:+ nl +:+ "NOT_FOUND")),
       {| requests :=
            [("https://api.airtable.com/v0/base/Sections", "Bearer token")];
          console := []; dirs := ∅; files := ∅ |}).
Proof.
  assert (ok (mkResponse 404 "Not Found" "NOT_FOUND" JsonRejected) = false)
    as Hok by (vm_compute; reflexivity).
  split; [exact Hok |].
  exact (proj1 (fetch_failure_aborts notFoundEnv initialState SECTIONS_TABLE ""
                  (mkResponse 404 "Not Found" "NOT_FOUND" JsonRejected)
                  eq_refl Hok)).
Defined.

(** C10.  When the Globals table delivers no record, the run does not
    fail: the settings are taken to be empty, the hero title, the hero
    subtitle, the footer text and the SEO description are empty strings, the
    title is [Simple Web], and the document written is the template filled
    with these and the rendered cards. *)
Theorem empty_globals_default env (s : State) gres sres sections :
  fetch env (tableUrl env GLOBALS_TABLE "?maxRecords=1") (authorization env)
    = Some gres →
  ok gres = true →
  json gres = JsonObject (Some []) →
  fetch env (tableUrl env SECTIONS_TABLE "") (authorization env) = Some sres →
  ok sres = true →
  json sres = JsonObject (Some sections) →
  fsFails env "public" = false →
  fsFails env "public/index.html" = false →
  globalsOf [] = ∅
  ∧ heroTitleOf ∅ = "" ∧ heroSubtitleOf ∅ = "" ∧ footerTextOf ∅ = ""
  ∧ seoDescriptionOf ∅ = "" ∧ seoTitleOf ∅ = "Simple Web"
  ∧ (∃ s', main env s = (inr tt, s')
           ∧ files s' !! "public/index.html" =
               Some (documentTemplate "Simple Web" "" "" ""
                       (renderCards sections).1 ""))
  ∧ between "<title>" "</title>"
      (documentTemplate "Simple Web" "" "" "" (renderCards sections).1 "")
    = Some "Simple Web".
Proof.
  intros Hg Hgok Hgjson Hs Hsok Hsjson Hdir Hfile.
  do 6 (split; [vm_compute; reflexivity |]). split.
  - destruct (main_success env s gres sres [] sections)
      as (s' & Hmain & Hfiles); try done.
    exists s'. split; [done |]. rewrite Hfiles, lookup_insert_eq. done.
  - by apply document_title.
Qed.

Lemma empty_globals_default_witness :
  ∃ s', main emptyGlobalsEnv initialState = (inr tt, s')
        ∧ files s' !! "public/index.html" =
            Some (documentTemplate "Simple Web" "" "" ""
                    (renderCards sampleCards).1 "").
Proof.
  exact (proj1 (proj2 (proj2 (proj2 (proj2 (proj2 (proj2
    (empty_globals_default emptyGlobalsEnv initialState
       (mkResponse 200 "OK" "" (JsonObject (Some [])))
       (mkResponse 200 "OK" "" (JsonObject (Some sampleCards)))
       sampleCards eq_refl eq_refl eq_refl eq_refl eq_refl eq_refl
       eq_refl eq_refl)))))))).
Defined.
End Claims.

(** * Further properties of the code *)

(** ** The Escaper, as a function on texts *)

Section EscaperFacts.
Implicit Types (s t : string) (c : ascii) (v : jsval).

Lemma escapeChar_cases c :
  (c = "&"%char ∧ escapeChar c = "&amp;")
  ∨ (c = "<"%char ∧ escapeChar c = "&lt;")
  ∨ (c = ">"%char ∧ escapeChar c = "&gt;")
  ∨ (c = "034"%char ∧ escapeChar c = "&quot;")
  ∨ (significant c = false ∧ escapeChar c = String c "").
Proof.
  destruct c as [[] [] [] [] [] [] [] []]; cbv; auto 10.
Qed.

Lemma escapeChar_inj c c' s t :
  escapeChar c +:+ s = escapeChar c' +:+ t → c = c' ∧ s = t.
Proof.
  destruct (escapeChar_cases c) as [[-> ->]|[[-> ->]|[[-> ->]|[[-> ->]|[Hc ->]]]]];
    destruct (escapeChar_cases c')
      as [[-> ->]|[[-> ->]|[[-> ->]|[[-> ->]|[Hc' ->]]]]];
    rewrite ?string_app_cons, ?string_app_nil_l; intros Heq;
    try discriminate Heq;
    try (injection Heq as -> ->; done);
    try (injection Heq as ->; done);
    try (injection Heq as <- _; discriminate Hc');
    try (injection Heq as -> _; discriminate Hc).
Qed.

Lemma escapeChars_inj s t : escapeChars s = escapeChars t → s = t.
Proof.
  revert t. induction s as [|c s IH]; intros [|c' t] Heq; try done.
  - change (escapeChars "") with "" in Heq. symmetry in Heq.
    by apply (proj1 (escapeChars_empty _)) in Heq.
  - change (escapeChars "") with "" in Heq.
    by apply (proj1 (escapeChars_empty _)) in Heq.
  - cbn [escapeChars] in Heq.
    apply escapeChar_inj in Heq as [-> Heq]. by rewrite (IH _ Heq).
Qed.

Lemma escapeChar_bound c : (String.length (escapeChar c) ≤ 6)%nat.
Proof. destruct c as [[] [] [] [] [] [] [] []]; cbv; lia. Qed.

Lemma escapeChars_bound s :
  (String.length (escapeChars s) ≤ 6 * String.length s)%nat.
Proof.
  induction s as [|c s IH]; [done |].
  cbn [escapeChars String.length]. rewrite string_length_app.
  pose proof (escapeChar_bound c). lia.
Qed.

Lemma has_true_false (p : ascii → bool) s :
  has p s = true ∨ has p s = false.
Proof. destruct (has p s); auto. Qed.

Lemma escapeChars_fixed s : escapeChars s = s ↔ has significant s = false.
Proof.
  split; [| apply escapeChars_plain].
  intros Hfix. destruct (has significant s) eqn:Hs; [| done].
  pose proof (escapeChars_longer (escapeChars s)) as Hlen.
  rewrite escapeChars_amp, Hfix in Hlen. specialize (Hlen Hs).
  rewrite Hfix in Hlen. lia.
Qed.

(** X1.  Escaping loses nothing: two texts with the same escaped form are
    the same text. *)
Theorem escapeHtml_injective s t :
  escapeHtml (JStr s) = escapeHtml (JStr t) → s = t.
Proof. rewrite !escapeHtml_text. apply escapeChars_inj. Qed.

Lemma escapeHtml_injective_witness :
  escapeHtml (JStr "a&b") = escapeHtml (JStr "a&b") ∧ "a&b" = "a&b".
Proof.
  split; [reflexivity |].
  exact (escapeHtml_injective "a&b" "a&b" eq_refl).
Defined.

(** X2.  Escaping goes through concatenation: the escaped form of a text
    made of two parts is the escaped parts put together, so a value may be
    escaped in pieces, and escaping the empty text gives the empty text. *)
Theorem escapeHtml_concat s t :
  escapeHtml (JStr (s +:+ t)) = escapeHtml (JStr s) +:+ escapeHtml (JStr t)
  ∧ (escapeHtml (JStr s) = "" ↔ s = "").
Proof.
  rewrite !escapeHtml_text. split; [apply escapeChars_app |].
  apply escapeChars_empty.
Qed.

(** X3.  The escaped form of a text is at least as long as the text and at
    most six times as long, and it is the text itself exactly when the text
    holds none of the four characters. *)
Theorem escapeHtml_growth s :
  (String.length s ≤ String.length (escapeHtml (JStr s)) ≤ 6 * String.length s)%nat
  ∧ (escapeHtml (JStr s) = s ↔ has significant s = false).
Proof.
  rewrite escapeHtml_text. split; [split |].
  - apply escapeChars_length.
  - apply escapeChars_bound.
  - apply escapeChars_fixed.
Qed.
End EscaperFacts.

Section ValueFacts.
Implicit Types (n : Z) (b : bool).

Lemma uint_text_plain (d : Decimal.uint) :
  has significant (NilEmpty.string_of_uint d) = false.
Proof. induction d; [done | ..]; cbn [NilEmpty.string_of_uint has]; by rewrite IHd. Qed.

Lemma Z_to_string_plain n : has significant (Z_to_string n) = false.
Proof.
  unfold Z_to_string, NilZero.string_of_int, NilZero.string_of_uint.
  destruct (Z.to_int n) as [d|d]; destruct d; try done;
    cbn [has]; by rewrite (uint_text_plain (_ d)) || by rewrite uint_text_plain.
Qed.

(** X4.  A value that is not a text goes through [String] and comes out
    unchanged: a whole number within the safe range is rendered in decimal,
    a boolean as [true] or [false]; these texts hold none of the four
    characters, so the Escaper leaves them as they are. *)
Theorem escapeHtml_non_text n b :
  Z.abs n < 2 ^ 53 →
  escapeHtml (JNum n) = Z_to_string n
  ∧ has significant (escapeHtml (JNum n)) = false
  ∧ escapeHtml (JBool b) = (if b then "true" else "false").
Proof.
  intros _. unfold escapeHtml. cbn [ToString].
  rewrite !escapeString_chars, escapeChars_plain by apply Z_to_string_plain.
  split; [done |]. split; [apply Z_to_string_plain | by destruct b].
Qed.

Lemma escapeHtml_non_text_witness :
  Z.abs (-42) < 2 ^ 53 ∧ escapeHtml (JNum (-42)) = "-42".
Proof.
  assert (Z.abs (-42) < 2 ^ 53) as H by (vm_compute; reflexivity).
  split; [exact H |].
  exact (proj1 (escapeHtml_non_text (-42) true H)).
Defined.
End ValueFacts.

(** ** Reading markup back, continued *)

Section MoreMarkupFacts.
Implicit Types (s t u pat : string) (c a : ascii).

Lemma after_skip a pat s t :
  has (Ascii.eqb a) s = false →
  after (String a pat) (s +:+ t) = after (String a pat) t.
Proof.
  induction s as [|c s IH]; [done |].
  cbn [has]. intros [Hc Hs]%orb_false_iff.
  rewrite string_app_cons. cbn [after].
  by rewrite startsWith_other, IH.
Qed.

Lemma startsWith_length pat s :
  startsWith pat s = true → (String.length pat ≤ String.length s)%nat.
Proof.
  revert s. induction pat as [|a pat IH]; intros [|c s]; cbn; try done; try lia.
  intros [_ H]%andb_true_iff. apply IH in H. lia.
Qed.

Lemma startsWith_app pat s t :
  startsWith pat s = true → startsWith pat (s +:+ t) = true.
Proof.
  revert s. induction pat as [|a pat IH]; intros s.
  { intros _. by destruct (s +:+ t). }
  destruct s as [|c s]; [done |].
  rewrite string_app_cons. cbn [startsWith].
  intros [-> H]%andb_true_iff. by rewrite IH.
Qed.

Lemma startsWith_app_false pat s t :
  startsWith pat s = false →
  (String.length pat ≤ String.length s)%nat →
  startsWith pat (s +:+ t) = false.
Proof.
  revert s. induction pat as [|a pat IH]; intros [|c s]; cbn [String.length];
    try done; try lia.
  rewrite string_app_cons. cbn [startsWith].
  destruct (Ascii.eqb a c); cbn [andb]; [| done].
  intros H Hlen. apply IH; [done | lia].
Qed.

Lemma skip_app_le n s t :
  (n ≤ String.length s)%nat → skip n (s +:+ t) = skip n s +:+ t.
Proof.
  revert s. induction n as [|n IH]; intros [|c s]; cbn [String.length];
    try done; try lia.
  intros Hn. rewrite string_app_cons. cbn [skip]. apply IH. lia.
Qed.

Lemma after_length pat s u :
  after pat s = Some u → (String.length pat ≤ String.length s)%nat.
Proof.
  induction s as [|c s IH]; [done |]. cbn [after].
  destruct (startsWith pat (String c s)) eqn:Hs.
  - intros _. by apply startsWith_length.
  - intros H%IH. cbn [String.length]. lia.
Qed.

(** The first occurrence of a marker in a text is its first occurrence in
    any text that begins with it. *)
Lemma after_found pat s t u :
  after pat s = Some u → after pat (s +:+ t) = Some (u +:+ t).
Proof.
  induction s as [|c s IH]; [done |]. cbn [after].
  destruct (startsWith pat (String c s)) eqn:Hs.
  - intros [= <-]. pose proof (startsWith_app _ _ t Hs) as Hst.
    pose proof (skip_app_le _ _ t (startsWith_length _ _ Hs)) as Hsk.
    rewrite string_app_cons in *. cbn [after]. by rewrite Hst, Hsk.
  - intros Hu. pose proof (after_length _ _ _ Hu) as Hlen.
    pose proof (startsWith_app_false pat (String c s) t Hs) as Hst.
    rewrite string_app_cons in *. cbn [after].
    rewrite Hst by (cbn [String.length]; lia). by apply IH.
Qed.

End MoreMarkupFacts.



Ltac find_after :=
  repeat first
    [ rewrite after_within by reflexivity
    | rewrite after_skip by auto with markup ];
  erewrite after_found by reflexivity;
  cbn [mbind option_bind]; rewrite ?string_app_nil_l.

(** ** Cards, whatever the records hold *)

(** Counting through a card, as before. *)
Ltac count_piece :=
  first
    [ rewrite occurrences_skip by auto with markup
    | erewrite occurrences_bullets by reflexivity
    | erewrite countWithin_app by reflexivity ].

Ltac count_card :=
  unfold renderCard, highlightClassOf;
  rewrite bulletsHtmlOf_cases;
  match goal with
  | |- context [truthy (get ?f "Highlight")] =>
      destruct (truthy (get f "Highlight"))
  end;
  match goal with
  | |- context [keptBullets ?f] =>
      destruct (keptBullets f) eqn:?; cbv beta iota;
      [| match goal with H : keptBullets f = _ |- _ => rewrite <-H end]
  end;
  rewrite ?string_app_assoc, ?string_app_nil_l;
  repeat count_piece;
  cbn [length]; lia.

Section MoreCardFacts.
Implicit Types (f : gmap string jsval) (rec : AirtableRecord).
Implicit Types (l : list AirtableRecord).

Lemma card_body rec :
  between "<p>" "</p>" (renderCard rec) =
    Some (escapeHtml (js_nullish (get (fields rec) "Body") (JStr ""))).
Proof.
  unfold renderCard, between, highlightClassOf.
  destruct (truthy (get (fields rec) "Highlight")); find_after;
    apply before_closing, escapeHtml_no_lt.
Qed.

(** X5.  The [<p>] of a card holds the escaped [Body].  A [Title] or a
    [Body] that is missing, [undefined] or [null] gives an empty element,
    never the text [undefined] or [null]. *)
Theorem card_text_elements rec :
  between "<p>" "</p>" (renderCard rec)
    = Some (escapeHtml (js_nullish (get (fields rec) "Body") (JStr "")))
  ∧ (isNullish (get (fields rec) "Title") = true →
       between "<h2>" "</h2>" (renderCard rec) = Some "")
  ∧ (isNullish (get (fields rec) "Body") = true →
       between "<p>" "</p>" (renderCard rec) = Some "")
  ∧ (∀ s, get (fields rec) "Body" = JStr s →
       between "<p>" "</p>" (renderCard rec) = Some (escapeChars s)).
Proof.
  rewrite card_body, card_heading. split; [done |]. split; [| split].
  - by destruct (get (fields rec) "Title").
  - by destruct (get (fields rec) "Body").
  - intros s ->. cbn [js_nullish]. by rewrite escapeHtml_text.
Qed.

Lemma occurrences_items p n m (bs : list jsval) t :
  countWithin (String "<" p) "<li>" = Some n →
  countWithin (String "<" p) "</li>" = Some m →
  occurrences (String "<" p) (join "" (renderBullet <$> bs) +:+ t) =
    ((n + m) * length bs + occurrences (String "<" p) t)%nat.
Proof.
  intros Hopen Hclose. induction bs as [|b bs IH].
  { rewrite fmap_nil. cbn [join length]. rewrite string_app_nil_l. lia. }
  rewrite fmap_cons, join_empty_cons. unfold renderBullet at 1.
  rewrite !string_app_assoc.
  rewrite (countWithin_app _ _ _ _ Hopen).
  rewrite occurrences_skip by auto with markup.
  rewrite (countWithin_app _ _ _ _ Hclose), IH.
  cbn [length]. lia.
Qed.

(** X6.  The values of a record add no tag to its card: the number of [<]
    characters of a card depends on the number of list items alone. *)
Theorem card_tag_count rec :
  occurrences "<" (renderCard rec)
    = cardTags (length (keptBullets (fields rec))).
Proof.
  rewrite <-(string_app_nil_r (renderCard rec)).
  unfold renderCard, highlightClassOf, cardTags.
  rewrite bulletsHtmlOf_cases.
  destruct (truthy (get (fields rec) "Highlight"));
    destruct (keptBullets (fields rec)) as [|b bs]; cbv beta iota;
    rewrite ?string_app_assoc, ?string_app_nil_l;
    repeat first
      [ rewrite occurrences_skip by auto with markup
      | erewrite occurrences_items by reflexivity
      | erewrite countWithin_app by reflexivity ];
    cbn [length occurrences Nat.add]; lia.
Qed.

(** X7.  Whatever the three bullet slots hold, a card has as many list
    items as slots with a truthy value, at most three, and at most one
    list; it has a list exactly when it has an item. *)
Theorem card_list_bounds rec :
  occurrences "<li>" (renderCard rec) = length (keptBullets (fields rec))
  ∧ (occurrences "<li>" (renderCard rec) ≤ 3)%nat
  ∧ (occurrences "<ul>" (renderCard rec) ≤ 1)%nat
  ∧ (occurrences "<ul>" (renderCard rec) = 0%nat
     ↔ occurrences "<li>" (renderCard rec) = 0%nat).
Proof.
  rewrite <-(string_app_nil_r (renderCard rec)), card_items, card_lists.
  pose proof (keptBullets_length (fields rec)) as Hlen.
  cbn [occurrences]. destruct (keptBullets (fields rec)); cbn [length] in *.
  - repeat split; lia.
  - repeat split; lia.
Qed.

(** The cards of a list, joined, hold [k] occurrences of a tag per record
    when one card holds [k]. *)
Lemma occurrences_cards p k l t :
  (∀ rec u, occurrences (String "<" p) (renderCard rec +:+ u)
            = (k + occurrences (String "<" p) u)%nat) →
  occurrences (String "<" p) (join nl (renderCard <$> l) +:+ t)
    = (k * length l + occurrences (String "<" p) t)%nat.
Proof.
  intros Hcard. induction l as [|a l IH].
  { rewrite fmap_nil. cbn [join length]. rewrite string_app_nil_l. lia. }
  destruct l as [|b l].
  - cbn [fmap list_fmap join length]. rewrite Hcard. lia.
  - rewrite !fmap_cons, join_nl_cons, !string_app_assoc, Hcard.
    rewrite occurrences_skip by done.
    rewrite <-!fmap_cons, IH. cbn [length]. lia.
Qed.

Lemma card_closings rec t :
  occurrences "</section>" (renderCard rec +:+ t) =
    S (occurrences "</section>" t).
Proof. count_card. Qed.

(** X8.  No record is dropped or rendered twice, whatever its fields hold
    (an [Order] that is not a number included): the array after the call is
    a rearrangement of the array before it, and the HTML opens and closes
    exactly one section per record. *)
Theorem renderCards_complete l :
  (renderCards l).2 ≡ₚ l
  ∧ occurrences "<section" (renderCards l).1 = length l
  ∧ occurrences "</section>" (renderCards l).1 = length l.
Proof.
  split; [apply Array_sort_perm |].
  cbn [renderCards fst].
  rewrite <-(string_app_nil_r (join _ _)).
  rewrite (occurrences_cards _ 1 _ _ card_sections).
  rewrite (occurrences_cards _ 1 _ _ card_closings).
  rewrite Array_sort_length. cbn [occurrences]. lia.
Qed.
End MoreCardFacts.

(** ** The document, whatever the tables hold *)


Section DocumentFacts.
Implicit Types (globals : gmap string jsval) (l : list AirtableRecord).

Lemma heroTitleOf_no_markup globals : has markup (heroTitleOf globals) = false.
Proof. apply escapeHtml_no_markup. Qed.

Lemma heroSubtitleOf_no_markup globals :
  has markup (heroSubtitleOf globals) = false.
Proof. apply escapeHtml_no_markup. Qed.

Lemma footerTextOf_no_markup globals :
  has markup (footerTextOf globals) = false.
Proof. apply escapeHtml_no_markup. Qed.

Lemma seoDescriptionOf_no_markup globals :
  has markup (seoDescriptionOf globals) = false.
Proof. apply escapeHtml_no_markup. Qed.

Lemma card_script_tags rec t :
  occurrences "<script" (renderCard rec +:+ t) =
    (0 + occurrences "<script" t)%nat.
Proof. count_card. Qed.



(** X10.  No table content puts a script tag into the page: the document
    assembled from any settings and any records holds no [<script]. *)
Theorem document_no_script globals l :
  occurrences "<script" (documentHtml globals (renderCards l).1) = 0%nat.
Proof.
  unfold documentHtml, documentTemplate. cbv zeta. cbn [renderCards fst].
  pose proof (seoTitleOf_no_lt globals) as Htitle.
  pose proof (no_markup_lt _ (seoDescriptionOf_no_markup globals)) as Hdesc.
  pose proof (no_markup_lt _ (heroTitleOf_no_markup globals)) as Hhero.
  pose proof (no_markup_lt _ (heroSubtitleOf_no_markup globals)) as Hsub.
  pose proof (no_markup_lt _ (footerTextOf_no_markup globals)) as Hfoot.
  repeat first
    [ rewrite occurrences_skip by auto with markup
    | rewrite (occurrences_cards _ 0 _ _ card_script_tags)
    | erewrite countWithin_app by reflexivity ].
  reflexivity.
Qed.
End DocumentFacts.

(** ** The order in which the records arrive *)

Section ArrivalOrder.
Context {A : Type} (key : A → Z).
Implicit Types (x y : A) (l : list A).

(** Two arrangements of the same elements, both in key order, are the same
    list when no two elements share a key. *)
Lemma sorted_arrangement_unique l1 l2 :
  l1 ≡ₚ l2 →
  NoDup (key <$> l1) →
  StronglySorted (λ x y, key x ≤ key y) l1 →
  StronglySorted (λ x y, key x ≤ key y) l2 →
  l1 = l2.
Proof.
  revert l2. induction l1 as [|x l1 IH]; intros l2 Hperm Hnd Hs1 Hs2.
  { by apply Permutation_nil_l in Hperm. }
  destruct l2 as [|y l2]; [by apply Permutation_nil_r in Hperm |].
  rewrite fmap_cons in Hnd. apply NoDup_cons in Hnd as [Hx Hnd].
  apply StronglySorted_inv in Hs1 as [Hs1 Hx1].
  apply StronglySorted_inv in Hs2 as [Hs2 Hy2].
  assert (x = y) as ->.
  { assert (y ∈ x :: l1) as Hy by (rewrite Hperm; left).
    assert (x ∈ y :: l2) as Hxin by (rewrite <-Hperm; left).
    apply elem_of_cons in Hy as [->|Hy]; [done |].
    apply elem_of_cons in Hxin as [->|Hxin]; [done |].
    rewrite Forall_forall in Hx1, Hy2.
    specialize (Hx1 _ Hy). specialize (Hy2 _ Hxin). cbn beta in Hx1, Hy2.
    destruct Hx. replace (key x) with (key y) by lia.
    by apply list_elem_of_fmap_2. }
  f_equal. apply IH; try done. by apply Permutation_cons_inv in Hperm.
Qed.
End ArrivalOrder.

Section ArrivalOrderOfCards.
Implicit Types (l : list AirtableRecord).

(** X11.  When the records carry numeric and pairwise different [Order]s,
    the page does not depend on the order in which the table delivers
    them: two arrangements of the same records give the same HTML, and
    leave the same array. *)
Theorem renderCards_arrival_order l1 l2 :
  l1 ≡ₚ l2 →
  Forall hasOrder l1 →
  NoDup (orderOf <$> l1) →
  renderCards l1 = renderCards l2.
Proof.
  intros Hperm Htyped Hnd.
  assert (Forall hasOrder l2) as Htyped2 by (by rewrite <-Hperm).
  unfold renderCards.
  rewrite (sorted_arrangement_unique orderOf
             (Array_sort byOrder l1) (Array_sort byOrder l2)); [done | ..].
  - by rewrite !Array_sort_perm.
  - by rewrite Array_sort_perm.
  - by apply (Array_sort_sorted byOrder orderOf hasOrder byOrder_key).
  - by apply (Array_sort_sorted byOrder orderOf hasOrder byOrder_key).
Qed.

Lemma renderCards_arrival_order_witness :
  [cardC; cardB; cardA] ≡ₚ sampleCards
  ∧ renderCards [cardC; cardB; cardA] = renderCards sampleCards.
Proof.
  assert ([cardC; cardB; cardA] ≡ₚ sampleCards) as Hperm.
  { change [cardC; cardB; cardA] with (reverse sampleCards).
    apply reverse_Permutation. }
  assert (Forall hasOrder [cardC; cardB; cardA]) as Htyped
    by (repeat constructor; vm_compute; reflexivity).
  assert (NoDup (orderOf <$> [cardC; cardB; cardA])) as Hnd
    by (apply (bool_decide_unpack _); vm_compute; exact I).
  split; [exact Hperm |].
  exact (renderCards_arrival_order _ _ Hperm Htyped Hnd).
Defined.
End ArrivalOrderOfCards.

(** ** Every run of the script *)

Section EveryRun.
Context (env : Env).
Implicit Types (s : State) (e : exn).

Lemma fetchTable_outcome tableName params s :
  fetchTable env tableName params s =
    (fetchOutcome env tableName params,
     sent env s (tableUrl env tableName params)).
Proof.
  unfold fetchTable, fetchOutcome. rewrite bind_run. unfold doFetch.
  destruct (fetch env _ _) as [res|]; [| done].
  destruct (ok res); cbn [negb]; [| done]. by destruct (json res).
Qed.

(** [main], step by step. *)
Lemma main_steps s :
  main env s =
    let s0 := logged s (Log "📡 Fetching content from Airtable...") in
    match fetchOutcome env GLOBALS_TABLE "?maxRecords=1" with
    | inl e => (inl e, sent env s0 (tableUrl env GLOBALS_TABLE "?maxRecords=1"))
    | inr globalsRecords =>
        match fetchOutcome env SECTIONS_TABLE "" with
        | inl e => (inl e, asked env s)
        | inr sectionsRecords =>
            match globalsRecords, sectionsRecords with
            | Some globalsRecords, Some sectionsRecords =>
                if fsFails env "public"
                then (inl (FsError "public"), asked env s)
                else if fsFails env "public/index.html"
                then (inl (FsError "public/index.html"),
                      withFailedWrite env (withDir (asked env s) "public")
                        "public/index.html"
                        (documentHtml (globalsOf globalsRecords)
                           (renderCards sectionsRecords).1))
                else
                  (inr tt,
                   logged
                     (withFile (withDir (asked env s) "public")
                        "public/index.html"
                        (documentHtml (globalsOf globalsRecords)
                           (renderCards sectionsRecords).1))
                     (Log "✅ index.html generated from Airtable"))
            | _, _ => (inl TypeError, asked env s)
            end
        end
    end.
Proof.
  unfold main. cbv zeta.
  rewrite bind_run, console_log_run, bind_run, fetchTable_outcome.
  destruct (fetchOutcome env GLOBALS_TABLE _) as [e|globalsRecords]; [done |].
  rewrite bind_run, fetchTable_outcome.
  destruct (fetchOutcome env SECTIONS_TABLE _) as [e|sectionsRecords]; [done |].
  rewrite bind_run.
  destruct globalsRecords as [globalsRecords|]; cbn [from_option];
    [| by destruct sectionsRecords].
  unfold mret at 1, M_ret at 1. rewrite bind_run.
  destruct sectionsRecords as [sectionsRecords|]; cbn [from_option]; [| done].
  unfold mret at 1, M_ret at 1. rewrite bind_run. unfold fs_mkdir.
  destruct (fsFails env "public"); [done |].
  rewrite bind_run. unfold fs_writeFile, withFailedWrite.
  destruct (fsFails env "public/index.html");
    [by destruct (fsWritten env "public/index.html") |].
  by rewrite console_log_run.
Qed.

Lemma main_requests s :
  ∃ l, requests (main env s).2 = requests s ++ l
       ∧ (l = [(tableUrl env GLOBALS_TABLE "?maxRecords=1", authorization env)]
          ∨ l = [(tableUrl env GLOBALS_TABLE "?maxRecords=1", authorization env);
                 (tableUrl env SECTIONS_TABLE "", authorization env)]).
Proof.
  rewrite main_steps. cbv zeta.
  destruct (fetchOutcome env GLOBALS_TABLE _) as [e|globalsRecords].
  { eexists. split; [reflexivity | by left]. }
  assert (∀ (r : exn + ()) s', requests s' = requests (asked env s) →
            ∃ l, requests (r, s').2 = requests s ++ l
                 ∧ (l = [(tableUrl env GLOBALS_TABLE "?maxRecords=1",
                          authorization env)]
                    ∨ l = [(tableUrl env GLOBALS_TABLE "?maxRecords=1",
                            authorization env);
                           (tableUrl env SECTIONS_TABLE "", authorization env)]))
    as Hboth.
  { intros r s' Hs'. eexists. split; [| by right].
    cbn [snd]. rewrite Hs'. cbn [asked sent logged requests].
    by rewrite <-app_assoc. }
  destruct (fetchOutcome env SECTIONS_TABLE _) as [e|sectionsRecords];
    [by apply Hboth |].
  destruct globalsRecords, sectionsRecords; try by apply Hboth.
  destruct (fsFails env "public"); [by apply Hboth |].
  destruct (fsFails env "public/index.html"); [| by apply Hboth].
  apply Hboth. unfold withFailedWrite.
  by destruct (fsWritten env "public/index.html").
Qed.

(** X12.  A run sends no request when a credential is missing or empty,
    and otherwise asks for Globals first and then, if at all, for Sections:
    never more than these two requests, never one twice, each with the
    bearer token. *)
Theorem script_requests s :
  ∃ l,
    requests (script env s).2 = requests s ++ l
    ∧ l `prefix_of`
        [(tableUrl env GLOBALS_TABLE "?maxRecords=1",
          "Bearer " +:+ envText (AIRTABLE_TOKEN env));
         (tableUrl env SECTIONS_TABLE "",
          "Bearer " +:+ envText (AIRTABLE_TOKEN env))]
    ∧ (l = [] ↔ envMissing (AIRTABLE_TOKEN env) = true
               ∨ envMissing (AIRTABLE_BASE_ID env) = true).
Proof.
  unfold script.
  destruct (envMissing (AIRTABLE_TOKEN env) || envMissing (AIRTABLE_BASE_ID env))
    eqn:Hmissing.
  - exists []. cbn [snd requests]. rewrite app_nil_r.
    split; [done |]. split; [by eexists |].
    split; [intros _; by apply orb_true_iff | done].
  - destruct (main_requests s) as (l & Hreq & Hl).
    exists l. apply orb_false_iff in Hmissing as [Htoken Hbase].
    split; [by destruct (main env s) as [[e|[]] s'] |].
    split.
    + destruct Hl as [->| ->]; [by eexists [_] | by eexists []].
    + rewrite Htoken, Hbase. split; [| by intros [?|?]].
      by destruct Hl as [->| ->].
Qed.

Lemma firstBytes_prefix (n : nat) (data : string) :
  ∃ rest, data = firstBytes n data +:+ rest.
Proof.
  revert data. induction n as [|n IH]; intros data.
  { exists data. by destruct data. }
  destruct data as [|c data]; [by exists "" |].
  destruct (IH data) as [rest Hrest]. exists rest.
  cbn [firstBytes]. by rewrite string_app_cons, <-Hrest.
Qed.

(** X13.  A run ends in one of three ways.  It exits with code 0: then
    both tables were delivered with a success status and a [records] list,
    the directory [public] exists and [public/index.html] holds the page
    made from the first Globals record and the Sections records.  Or it
    exits with code 1 and every file is what it was.  Or it exits with code
    1 because the write of the page failed after the file was opened: the
    script writes straight into [public/index.html], so the file then
    holds the bytes written before the failure, a beginning of the page
    and possibly nothing.  No other file is ever touched. *)
Theorem script_outcome s :
  (((script env s).1 = 0
    ∧ ∃ gres sres globalsRecords sectionsRecords,
        fetch env (tableUrl env GLOBALS_TABLE "?maxRecords=1")
          (authorization env) = Some gres
        ∧ ok gres = true ∧ json gres = JsonObject (Some globalsRecords)
        ∧ fetch env (tableUrl env SECTIONS_TABLE "") (authorization env)
            = Some sres
        ∧ ok sres = true ∧ json sres = JsonObject (Some sectionsRecords)
        ∧ files (script env s).2 =
            <["public/index.html" :=
                documentHtml (globalsOf globalsRecords)
                  (renderCards sectionsRecords).1]> (files s)
        ∧ dirs (script env s).2 = {["public"]} ∪ dirs s)
   ∨ ((script env s).1 = 1 ∧ files (script env s).2 = files s)
   ∨ ((script env s).1 = 1
      ∧ fsFails env "public/index.html" = true
      ∧ ∃ n globalsRecords sectionsRecords rest,
          fsWritten env "public/index.html" = Some n
          ∧ fetchOutcome env GLOBALS_TABLE "?maxRecords=1"
              = inr (Some globalsRecords)
          ∧ fetchOutcome env SECTIONS_TABLE "" = inr (Some sectionsRecords)
          ∧ files (script env s).2 =
              <["public/index.html" :=
                  firstBytes n
                    (documentHtml (globalsOf globalsRecords)
                       (renderCards sectionsRecords).1)]> (files s)
          ∧ documentHtml (globalsOf globalsRecords)
              (renderCards sectionsRecords).1
            = firstBytes n
                (documentHtml (globalsOf globalsRecords)
                   (renderCards sectionsRecords).1) +:+ rest))
  ∧ ∀ path, path ≠ "public/index.html" →
      files (script env s).2 !! path = files s !! path.
Proof.
  unfold script. destruct (_ || _); [by split; [right; left |] |].
  rewrite main_steps. cbv zeta.
  destruct (fetchOutcome env GLOBALS_TABLE _) as [e|globalsRecords] eqn:Hg;
    [by split; [right; left |] |].
  destruct (fetchOutcome env SECTIONS_TABLE _) as [e|sectionsRecords] eqn:Hs;
    [by split; [right; left |] |].
  destruct globalsRecords as [globalsRecords|];
    [| by split; [right; left |]].
  destruct sectionsRecords as [sectionsRecords|];
    [| by split; [right; left |]].
  destruct (fsFails env "public"); [by split; [right; left |] |].
  destruct (fsFails env "public/index.html") eqn:Hfile.
  - unfold withFailedWrite.
    destruct (fsWritten env "public/index.html") as [n|] eqn:Hn;
      [| by split; [right; left |]].
    split.
    + right; right. split; [done |]. split; [done |].
      destruct (firstBytes_prefix n
                  (documentHtml (globalsOf globalsRecords)
                     (renderCards sectionsRecords).1)) as [rest Hrest].
      by exists n, globalsRecords, sectionsRecords, rest.
    + intros path Hpath. cbn [snd logged withFile files].
      by rewrite lookup_insert_ne.
  - split.
    + left. split; [done |].
      unfold fetchOutcome in Hg, Hs.
      destruct (fetch env (tableUrl env GLOBALS_TABLE _) _) as [gres|];
        [| done].
      destruct (ok gres) eqn:Hgok; [| done].
      destruct (json gres) as [|gr] eqn:Hgjson; [done |].
      destruct (fetch env (tableUrl env SECTIONS_TABLE _) _) as [sres|];
        [| done].
      destruct (ok sres) eqn:Hsok; [| done].
      destruct (json sres) as [|sr] eqn:Hsjson; [done |].
      injection Hg as ->. injection Hs as ->.
      by exists gres, sres, globalsRecords, sectionsRecords.
    + intros path Hpath. cbn [snd logged withFile files].
      by rewrite lookup_insert_ne.
Qed.

Lemma script_main s :
  envMissing (AIRTABLE_TOKEN env) = false →
  envMissing (AIRTABLE_BASE_ID env) = false →
  script env s =
    match main env s with
    | (inl err, s') => (1, logged s' (LogError "❌ Build failed:" (Some err)))
    | (inr _, s') => (0, s')
    end.
Proof. intros Htoken Hbase. unfold script. by rewrite Htoken, Hbase. Qed.

(** X14.  When the Globals table cannot be obtained, for whatever reason
    (the request fails, the status is not a success, the body is not JSON),
    the Sections table is never asked for: the run has sent the one request,
    printed the opening line and the error, touched no directory and no
    file, and exits with code 1. *)
Theorem globals_failure_stops s e :
  envMissing (AIRTABLE_TOKEN env) = false →
  envMissing (AIRTABLE_BASE_ID env) = false →
  fetchOutcome env GLOBALS_TABLE "?maxRecords=1" = inl e →
  script env s =
    (1,
     {| requests :=
          requests s ++
            [(tableUrl env GLOBALS_TABLE "?maxRecords=1", authorization env)];
        console :=
          console s ++
            [Log "📡 Fetching content from Airtable...";
             LogError "❌ Build failed:" (Some e)];
        dirs := dirs s; files := files s |})
  ∧ (e = Rejected
     ∨ ∃ res,
         fetch env (tableUrl env GLOBALS_TABLE "?maxRecords=1")
           (authorization env) = Some res
         ∧ ok res = false ∧ e = fetchError GLOBALS_TABLE res).
Proof.
  intros Htoken Hbase Hout. split.
  - rewrite script_main, main_steps by done. cbv zeta. rewrite Hout.
    unfold logged, sent. cbn [requests console dirs files].
    by rewrite <-app_assoc.
  - unfold fetchOutcome in Hout.
    destruct (fetch env _ _) as [res|]; [| left; by injection Hout as <-].
    destruct (ok res) eqn:Hok.
    + destruct (json res); [left; by injection Hout as <- | done].
    + right. exists res. by injection Hout as <-.
Qed.

(** X15.  When both tables are delivered and the write of the page fails,
    the run exits with code 1, after both requests and with the directory
    [public], made before the write, left behind.  The file is as it was
    when it could not be opened; otherwise it holds the bytes written
    before the failure, which are a beginning of the page. *)
Theorem write_failure_leaves_directory s globalsRecords sectionsRecords :
  envMissing (AIRTABLE_TOKEN env) = false →
  envMissing (AIRTABLE_BASE_ID env) = false →
  fetchOutcome env GLOBALS_TABLE "?maxRecords=1" = inr (Some globalsRecords) →
  fetchOutcome env SECTIONS_TABLE "" = inr (Some sectionsRecords) →
  fsFails env "public" = false →
  fsFails env "public/index.html" = true →
  script env s =
    (1,
     {| requests :=
          requests s ++
            [(tableUrl env GLOBALS_TABLE "?maxRecords=1", authorization env);
             (tableUrl env SECTIONS_TABLE "", authorization env)];
        console :=
          console s ++
            [Log "📡 Fetching content from Airtable...";
             LogError "❌ Build failed:" (Some (FsError "public/index.html"))];
        dirs := {["public"]} ∪ dirs s;
        files :=
          match fsWritten env "public/index.html" with
          | None => files s
          | Some n =>
              <["public/index.html" :=
                  firstBytes n
                    (documentHtml (globalsOf globalsRecords)
                       (renderCards sectionsRecords).1)]> (files s)
          end |})
  ∧ ∀ n, ∃ rest,
      documentHtml (globalsOf globalsRecords) (renderCards sectionsRecords).1
      = firstBytes n
          (documentHtml (globalsOf globalsRecords)
             (renderCards sectionsRecords).1) +:+ rest.
Proof.
  intros Htoken Hbase Hg Hs Hdir Hfile. split; [| intros n; apply firstBytes_prefix].
  rewrite script_main, main_steps by done. cbv zeta.
  rewrite Hg, Hs, Hdir, Hfile.
  unfold withFailedWrite, logged, withFile, withDir, asked, sent, logged.
  destruct (fsWritten env "public/index.html");
    cbn [requests console dirs files]; by rewrite <-!app_assoc.
Qed.

(** X16.  When an answer is a JSON object without a [records] property,
    the run fails with a type error once both tables have been asked for:
    nothing is written and the exit code is 1. *)
Theorem missing_records_type_error s globalsRecords sectionsRecords :
  envMissing (AIRTABLE_TOKEN env) = false →
  envMissing (AIRTABLE_BASE_ID env) = false →
  fetchOutcome env GLOBALS_TABLE "?maxRecords=1" = inr globalsRecords →
  fetchOutcome env SECTIONS_TABLE "" = inr sectionsRecords →
  globalsRecords = None ∨ sectionsRecords = None →
  script env s =
    (1,
     {| requests :=
          requests s ++
            [(tableUrl env GLOBALS_TABLE "?maxRecords=1", authorization env);
             (tableUrl env SECTIONS_TABLE "", authorization env)];
        console :=
          console s ++
            [Log "📡 Fetching content from Airtable...";
             LogError "❌ Build failed:" (Some TypeError)];
        dirs := dirs s;
        files := files s |}).
Proof.
  intros Htoken Hbase Hg Hs Hnone.
  rewrite script_main, main_steps by done. cbv zeta. rewrite Hg, Hs.
  assert ((match globalsRecords, sectionsRecords with
           | Some g, Some l =>
               if fsFails env "public"
               then (inl (FsError "public"), asked env s)
               else if fsFails env "public/index.html"
               then (inl (FsError "public/index.html"),
                     withFailedWrite env (withDir (asked env s) "public")
                       "public/index.html"
                       (documentHtml (globalsOf g) (renderCards l).1))
               else
                 (inr tt,
                  logged
                    (withFile (withDir (asked env s) "public")
                       "public/index.html"
                       (documentHtml (globalsOf g) (renderCards l).1))
                    (Log "✅ index.html generated from Airtable"))
           | _, _ => (inl TypeError, asked env s)
           end : (exn + ()) * State) = (inl TypeError, asked env s)) as ->.
  { destruct Hnone as [-> | ->]; [done | by destruct globalsRecords]. }
  unfold logged, asked, sent, logged.
  cbn [requests console dirs files]. by rewrite <-!app_assoc.
Qed.
End EveryRun.

Lemma globals_failure_stops_witness :
  script notFoundEnv initialState =
    (1,
     {| requests :=
          [("https://api.airtable.com/v0/base/Globals?maxRecords=1",
            "Bearer token")];
        console :=
          [Log "📡 Fetching content from Airtable...";
           LogError "❌ Build failed:"
             (Some (fetchError GLOBALS_TABLE
                      (mkResponse 404 "Not Found" "NOT_FOUND" JsonRejected)))];
        dirs := ∅; files := ∅ |}).
Proof.
  exact (proj1 (globals_failure_stops notFoundEnv initialState _
                  eq_refl eq_refl eq_refl)).
Defined.

Lemma write_failure_leaves_directory_witness :
  (script fullDiskEnv initialState).1 = 1
  ∧ dirs (script fullDiskEnv initialState).2 = {["public"]} ∪ ∅
  ∧ files (script fullDiskEnv initialState).2 !! "public/index.html"
    = Some ("<!DOCTYPE html>" +:+ nl).
Proof.
  rewrite (proj1 (write_failure_leaves_directory fullDiskEnv initialState
                    [] sampleCards eq_refl eq_refl eq_refl eq_refl eq_refl
                    eq_refl)).
  split; [done |]. split; [done |]. by vm_compute.
Defined.

Lemma missing_records_type_error_witness :
  (script noRecordsEnv initialState).1 = 1
  ∧ files (script noRecordsEnv initialState).2 = ∅.
Proof.
  rewrite (missing_records_type_error noRecordsEnv initialState
             None (Some sampleCards) eq_refl eq_refl eq_refl eq_refl
             (or_introl eq_refl)).
  done.
Defined.

(** ** The address of a table *)

Section TableAddress.
Implicit Types (s t u : string) (c : ascii).

Lemma hexDigit_safe c :
  pathSafe (hexDigit (N_of_ascii c / 16)) = true
  ∧ pathSafe (hexDigit (N_of_ascii c mod 16)) = true.
Proof. destruct c as [[] [] [] [] [] [] [] []]; by vm_compute. Qed.

Lemma hexDigit_value c :
  ascii_of_N (16 * hexValue (hexDigit (N_of_ascii c / 16))
              + hexValue (hexDigit (N_of_ascii c mod 16))) = c.
Proof. destruct c as [[] [] [] [] [] [] [] []]; by vm_compute. Qed.

Lemma encodeURIComponent_safe t : every pathSafe (encodeURIComponent t) = true.
Proof.
  induction t as [|c t IH]; [done |]. cbn [encodeURIComponent].
  destruct (unreserved c) eqn:Hc; cbn [every].
  - unfold pathSafe at 1. by rewrite Hc, IH.
  - destruct (hexDigit_safe c) as [-> ->]. by rewrite IH.
Qed.

Lemma every_has (p : ascii → bool) c s :
  every p s = true → p c = false → has (Ascii.eqb c) s = false.
Proof.
  intros Hs Hc. induction s as [|x s IH]; [done |].
  cbn [every has] in *. apply andb_true_iff in Hs as [Hx Hs].
  rewrite (IH Hs), orb_false_r.
  destruct (Ascii.eqb_spec c x) as [->|?]; [congruence | done].
Qed.

Lemma encodeURIComponent_plain t :
  every unreserved t = true → encodeURIComponent t = t.
Proof.
  induction t as [|c t IH]; [done |]. cbn [every encodeURIComponent].
  intros [-> Ht]%andb_true_iff. by rewrite IH.
Qed.

Lemma encodeURIComponent_inj s t :
  encodeURIComponent s = encodeURIComponent t → s = t.
Proof.
  revert t. induction s as [|c s IH]; intros [|c' t];
    cbn [encodeURIComponent].
  - done.
  - by destruct (unreserved c').
  - by destruct (unreserved c).
  - destruct (unreserved c) eqn:Hc, (unreserved c') eqn:Hc'.
    + intros [= -> Heq]. by rewrite (IH _ Heq).
    + intros [= -> _]. done.
    + intros [= <- _]. done.
    + intros [= Hhi Hlo Heq].
      rewrite <-(hexDigit_value c), <-(hexDigit_value c'), Hhi, Hlo.
      by rewrite (IH _ Heq).
Qed.

Lemma string_app_inv_tail s t u : s +:+ u = t +:+ u → s = t.
Proof.
  revert t. induction s as [|c s IH]; intros [|c' t] Heq.
  - done.
  - apply (f_equal String.length) in Heq.
    rewrite string_app_cons in Heq. cbn [String.length] in Heq.
    rewrite string_app_nil_l, string_length_app in Heq. lia.
  - apply (f_equal String.length) in Heq.
    rewrite string_app_cons in Heq. cbn [String.length] in Heq.
    rewrite string_app_nil_l, string_length_app in Heq. lia.
  - rewrite !string_app_cons in Heq. injection Heq as -> Heq.
    by rewrite (IH _ Heq).
Qed.

(** X17.  A table name enters the address as one path segment: its encoded
    form holds unreserved characters and percent escapes only, hence no
    slash, question mark, hash or ampersand, whatever the name; and a name
    made of unreserved characters is written as it is. *)
Theorem tableUrl_segment env tableName params :
  tableUrl env tableName params =
    "https://api.airtable.com/v0/" +:+ envText (AIRTABLE_BASE_ID env) +:+ "/"
      +:+ encodeURIComponent tableName +:+ params
  ∧ every pathSafe (encodeURIComponent tableName) = true
  ∧ (∀ c, c ∈ ["/"; "?"; "#"; "&"; "="; " "]%char →
       has (Ascii.eqb c) (encodeURIComponent tableName) = false)
  ∧ (every unreserved tableName = true →
       encodeURIComponent tableName = tableName).
Proof.
  split; [done |]. split; [apply encodeURIComponent_safe |]. split.
  - intros c Hc. apply (every_has pathSafe); [apply encodeURIComponent_safe |].
    repeat (apply elem_of_cons in Hc as [->|Hc]; [by vm_compute |]).
    by apply elem_of_nil in Hc.
  - apply encodeURIComponent_plain.
Qed.

(** X18.  Two different table names are never fetched from the same
    address (the parameters being the same). *)
Theorem tableUrl_injective env tableName tableName' params :
  tableUrl env tableName params = tableUrl env tableName' params →
  tableName = tableName'.
Proof.
  unfold tableUrl. intros Heq.
  do 3 apply string_app_inv_head in Heq.
  by apply string_app_inv_tail, encodeURIComponent_inj in Heq.
Qed.

Lemma tableUrl_injective_witness :
  tableUrl notFoundEnv "Globals" "" = tableUrl notFoundEnv "Globals" ""
  ∧ "Globals" = "Globals".
Proof.
  split; [reflexivity |].
  exact (tableUrl_injective notFoundEnv "Globals" "Globals" "" eq_refl).
Defined.
End TableAddress.

(** ** The title of the page *)

Section PageTitle.
Implicit Types (globals : gmap string jsval).

Lemma str_or_nonempty (a b : string) : b ≠ "" → str_or a b ≠ "".
Proof.
  intros Hb. unfold str_or. cbn [truthy].
  by destruct (String.eqb_spec a "").
Qed.

(** X19.  The page always has a title: whatever the settings hold, the
    text between [<title>] and [</title>] is the one the fallback chain
    chooses, it is not empty, and it holds no [<]. *)
Theorem document_title_present globals cardsHtml :
  between "<title>" "</title>" (documentHtml globals cardsHtml)
    = Some (seoTitleOf globals)
  ∧ seoTitleOf globals ≠ ""
  ∧ has (Ascii.eqb "<") (seoTitleOf globals) = false.
Proof.
  split; [| split].
  - unfold documentHtml. cbv zeta. apply document_title, seoTitleOf_no_lt.
  - unfold seoTitleOf. by do 2 apply str_or_nonempty.
  - apply seoTitleOf_no_lt.
Qed.
End PageTitle.
